(** * The sliding-window rate limiter of [module_name]

    A shallow embedding of [module_name/structs/rate_limiter.py],
    [module_name/config.py] and [module_name/middlewares/rate_limiter.py],
    and of what surrounds the limiter in the application
    ([handles/exception_handles.py], [structs/responses.py], [app.py],
    [decorators/database_pagination.py]), followed by the properties of
    the admission controller and of that code.

    Conventions of the embedding:
    - a Python [dict] whose iteration order is observable (the field
      snapshot of a request) is an association list in insertion order;
      the cookie mapping, of which only equality and emptiness are
      observed, is a [gmap];
    - [datetime] and [timedelta] are integers (microseconds);
    - a Python computation that may raise returns a [result];
    - the two readings of [datetime.utcnow()] made while one request is
      handled (in [_remove_olds] and in the default factory of
      [RequestState.timestamp]) are explicit arguments. *)

From stdpp Require Import gmap strings list sorting pretty.

Local Open Scope Z_scope.

(** ** Python values, exceptions and builtins *)

Module Py.

(** The values a field extractor can produce: a string (client host,
    header value) or the cookie mapping. *)
Inductive value :=
| VStr (s : string)
| VDict (d : gmap string string).

#[global] Instance value_eq_dec : EqDecision value.
Proof. solve_decision. Defined.

(** What a configuration file can hold under a key. The code passes the
    items of a list or of a dict on without looking into them; a float
    stands as its text. *)
Unset Elimination Schemes.
Inductive literal :=
| LNone
| LBool (b : bool)
| LInt (z : Z)
| LFloat (text : string)
| LStr (s : string)
| LList (items : list literal)
| LDict (items : list (literal * literal)).
Set Elimination Schemes.

(** [str | list | dict]: the message of the rate limiter, which becomes the
    detail of its [HTTPException]. *)
Inductive message :=
| MStr (s : string)
| MList (items : list literal)
| MDict (items : list (literal * literal)).

Inductive exn :=
| KeyError (key : string)
| TypeError                       (* unhashable type: 'dict' *)
| AttributeError                  (* 'NoneType' object has no attribute 'host' *)
| ValueError                      (* not a valid HTTPStatus *)
| ValidationError                 (* pydantic: a field of a model is not of its type *)
| AssertionError (msg : string)
| HTTPException (status_code : Z) (detail : option message).

Inductive result (A : Type) :=
| Ok (a : A)
| Raise (e : exn).
Arguments Ok {A} a.
Arguments Raise {A} e.

Definition bind {A B} (r : result A) (k : A -> result B) : result B :=
  match r with
  | Ok a => k a
  | Raise e => Raise e
  end.

(** [not item] is [negb (truthy item)]: the empty string and the empty
    mapping are falsy. *)
Definition truthy (v : value) : bool :=
  match v with
  | VStr s => negb (bool_decide (s = EmptyString))
  | VDict d => negb (bool_decide (d = ∅))
  end.

(** [a == b] on values: strings by content, mappings by content, a string
    never equals a mapping. *)
Definition eqb (a b : value) : bool := bool_decide (a = b).

(** [d[key]] on an insertion-ordered dict. *)
Fixpoint getitem {V} (d : list (string * V)) (key : string) : result V :=
  match d with
  | [] => Raise (KeyError key)
  | (k, v) :: d' => if decide (k = key) then Ok v else getitem d' key
  end.

Fixpoint has_key {V} (d : list (string * V)) (key : string) : bool :=
  match d with
  | [] => false
  | (k, _) :: d' => if decide (k = key) then true else has_key d' key
  end.

(** [item in d]: the item is hashed first, and a dict is unhashable. *)
Definition contains {V} (d : list (string * V)) (item : value) : result bool :=
  match item with
  | VStr s => Ok (has_key d s)
  | VDict _ => Raise TypeError
  end.

(** [d[key] = v]: an existing key keeps its position. *)
Fixpoint setitem {V} (d : list (string * V)) (key : string) (v : V)
  : list (string * V) :=
  match d with
  | [] => [(key, v)]
  | (k, v0) :: d' =>
      if decide (k = key) then (k, v) :: d' else (k, v0) :: setitem d' key v
  end.

(** [all] and [any] over a generator: the elements are produced one at a
    time, so an element that raises is only reached when no earlier
    element has settled the answer. *)
Fixpoint all (g : list (result bool)) : result bool :=
  match g with
  | [] => Ok true
  | Ok true :: g' => all g'
  | Ok false :: _ => Ok false
  | Raise e :: _ => Raise e
  end.

Fixpoint any (g : list (result bool)) : result bool :=
  match g with
  | [] => Ok false
  | Ok false :: g' => any g'
  | Ok true :: _ => Ok true
  | Raise e :: _ => Raise e
  end.

End Py.

Import Py.

Notation "'let*' x ':=' r 'in' k" := (bind r (fun x => k))
  (at level 10, x pattern, r at level 100, k at level 200).

(** ** [structs/rate_limiter.py] *)

Inductive MatchFields := IP | USERAGENT | COOKIE | AUTH.

#[global] Instance MatchFields_eq_dec : EqDecision MatchFields.
Proof. solve_decision. Defined.

Definition MatchFields_value (f : MatchFields) : string :=
  match f with
  | IP => "ip"
  | USERAGENT => "useragent"
  | COOKIE => "cookies"
  | AUTH => "auth"
  end.

Inductive MatchMethod := AND | OR.

#[global] Instance MatchMethod_eq_dec : EqDecision MatchMethod.
Proof. solve_decision. Defined.

Definition MatchMethod_value (m : MatchMethod) : string :=
  match m with
  | AND => "and"
  | OR => "or"
  end.

Record RequestState := {
  fields : list (string * value);
  timestamp : Z
}.

(** ** [config.py]: [RateLimitConfig], [DatabaseConfig], [ServiceConfig] *)

Module Config.

(** [match_fields: MatchFields | list[MatchFields] | None] *)
Inductive match_fields_t :=
| OneField (f : MatchFields)
| FieldList (l : list MatchFields).

Record RateLimitConfig := {
  enable : bool;
  window_time : option Z;
  limit : option Z;
  match_fields : option match_fields_t;
  match_method : option MatchMethod;
  status_code : Z;
  message : option message            (* [str | list | dict | None] *)
}.

(** The class defaults: every field a configuration file leaves out. *)
Definition RateLimitConfig_default : RateLimitConfig := {|
  enable := false;
  window_time := None;
  limit := None;
  match_fields := None;
  match_method := None;
  status_code := 429;
  message := None
|}.

Definition is_none {A} (o : option A) : bool :=
  match o with
  | None => true
  | Some _ => false
  end.

(** [for _attr in ATTR_NAMES: assert getattr(self, _attr) is not None, ...] *)
Fixpoint assert_defined (attrs : list (string * bool)) : result unit :=
  match attrs with
  | [] => Ok tt
  | (_attr, none) :: attrs' =>
      if none
      then Raise (AssertionError
                    ("`" +:+ _attr +:+ "` must be defined when enable is True"))
      else assert_defined attrs'
  end.

Section verify.

(** [HTTPStatus(code).phrase] of the Python standard library; [None]
    where [HTTPStatus(code)] raises [ValueError]. *)
Variable HTTPStatus_phrase : Z -> option string.

Definition verify_fields (self : RateLimitConfig) : result RateLimitConfig :=
  if negb (enable self) then Ok self
  else
    let* _ := assert_defined
          [ ("window_time"%string, is_none (window_time self));
            ("limit"%string, is_none (limit self));
            ("match_fields"%string, is_none (match_fields self));
            ("match_method"%string, is_none (match_method self)) ] in
    let match_fields' :=
      match match_fields self with
      | Some (OneField f) => Some (FieldList [f])
      | other => other
      end in
    let* message' :=
      match message self with
      | None =>
          match HTTPStatus_phrase (status_code self) with
          | Some phrase => Ok (Some (MStr phrase))
          | None => Raise ValueError
          end
      | Some m => Ok (Some m)
      end in
    Ok {| enable := enable self;
          window_time := window_time self;
          limit := limit self;
          match_fields := match_fields';
          match_method := match_method self;
          status_code := status_code self;
          message := message' |}.

Record DatabaseConfig := {
  db_enable : bool;
  url : option string
}.

Definition DatabaseConfig_verify_fields (self : DatabaseConfig)
  : result DatabaseConfig :=
  if negb (db_enable self) then Ok self
  else
    match url self with
    | None => Raise (AssertionError "`None` must be defined when enable is True")
    | Some _ => Ok self
    end.

Record ServiceConfig := {
  rate_limit : RateLimitConfig;
  database : DatabaseConfig
}.

(** Building [ServiceConfig] (part of building [Config] in
    [load_config]) validates its two sub-models; a validator that raises
    makes the construction raise. pydantic reports what the validators
    raised in one [ValidationError] of its own; the embedding keeps the
    exception of the first validator that raised. *)
Definition ServiceConfig_validate (raw : ServiceConfig) : result ServiceConfig :=
  let* rl := verify_fields (rate_limit raw) in
  let* db := DatabaseConfig_verify_fields (database raw) in
  Ok {| rate_limit := rl; database := db |}.

End verify.

End Config.

(** ** [middlewares/rate_limiter.py] *)

(** What the extractors read from a request: [request.client] (its host, or
    [None] when the server supplies no client address), two headers and the
    cookie mapping. *)
Record Request := {
  client : option string;
  user_agent : option string;
  cookies : gmap string string;
  authorization : option string
}.

(** The module-level settings read from [config.service.rate_limit]. *)
Record settings := {
  _match_fields : list MatchFields;
  _match_method : MatchMethod;
  _window_time : Z;
  _limit : Z;
  _status_code : Z;
  _message : option message
}.

(** The extractors produce a value or Python's [None]. *)
Definition _field_mapping : list (string * (Request -> result (option value))) :=
  [ (MatchFields_value IP,
      fun _req => match client _req with
                  | Some host => Ok (Some (VStr host))
                  | None => Raise AttributeError
                  end);
    (MatchFields_value USERAGENT, fun _req => Ok (VStr <$> user_agent _req));
    (MatchFields_value COOKIE, fun _req => Ok (Some (VDict (cookies _req))));
    (MatchFields_value AUTH, fun _req => Ok (VStr <$> authorization _req)) ].

(** One element of the generator of [_map_seq]:
    [(ignore_empty and (not item or item not in seq_2)) or item == seq_2[key]] *)
Definition _map_seq_item (seq_2 : list (string * value)) (ignore_empty : bool)
  (key : string) (item : value) : result bool :=
  let* ignored :=
    (if ignore_empty
     then if negb (truthy item) then Ok true
          else let* c := contains seq_2 item in Ok (negb c)
     else Ok false) in
  if (ignored : bool) then Ok true
  else let* v := getitem seq_2 key in Ok (eqb item v).

Definition _map_seq (seq_1 seq_2 : list (string * value)) (ignore_empty : bool)
  : list (result bool) :=
  map (fun '(key, item) => _map_seq_item seq_2 ignore_empty key item) seq_1.

Definition _and (seq_1 seq_2 : list (string * value)) : result bool :=
  all (_map_seq seq_1 seq_2 false).

Definition _or (seq_1 seq_2 : list (string * value)) : result bool :=
  any (_map_seq seq_1 seq_2 true).

(** The loop of [_remove_olds]: [n] indices remain to be visited, the next
    one is [n - 1]. *)
Fixpoint _remove_olds_from (_now _window_time : Z)
  (rate_limit_datas : list RequestState) (n : nat) : list RequestState :=
  match n with
  | O => rate_limit_datas
  | S index =>
      match rate_limit_datas !! index with
      | Some request_state =>
          if _now - timestamp request_state >? _window_time
          then drop (S index) rate_limit_datas
          else _remove_olds_from _now _window_time rate_limit_datas index
      | None => rate_limit_datas
      end
  end.

Definition _remove_olds (_now _window_time : Z)
  (rate_limit_datas : list RequestState) : list RequestState :=
  _remove_olds_from _now _window_time rate_limit_datas (length rate_limit_datas).

(** The dict comprehension
    [{_field.value: _field_mapping[_field.value](request) for _field in _match_fields}] *)
Fixpoint extract_all (request : Request) (fs : list MatchFields)
  (acc : list (string * option value)) : result (list (string * option value)) :=
  match fs with
  | [] => Ok acc
  | _field :: fs' =>
      let* f := getitem _field_mapping (MatchFields_value _field) in
      let* v := f request in
      extract_all request fs' (setitem acc (MatchFields_value _field) v)
  end.

(** [dict(filter(lambda _item: _item[1] is not None ..., d.items()))] *)
Fixpoint not_none (d : list (string * option value)) : list (string * value) :=
  match d with
  | [] => []
  | (k, Some v) :: d' => (k, v) :: not_none d'
  | (_, None) :: d' => not_none d'
  end.

Definition get_fields (cfg : settings) (request : Request)
  : result (list (string * value)) :=
  let* d := extract_all request (_match_fields cfg) [] in
  Ok (not_none d).

(** [filter(lambda _item: matcher(_fields, _item.fields), rate_limit_datas)]
    consumed by the counting loop. *)
Fixpoint count_last_requests (matcher : list (string * value) -> result bool)
  (rate_limit_datas : list RequestState) : result Z :=
  match rate_limit_datas with
  | [] => Ok 0
  | _item :: rest =>
      let* b := matcher (fields _item) in
      let* n := count_last_requests matcher rest in
      Ok (if (b : bool) then 1 + n else n)
  end.

(** [_rate_limit_middleware]: [Ok tt] stands for the request being handed to
    [call_next]; the second component is [rate_limit_datas] afterwards. *)
Definition _rate_limit_middleware (cfg : settings) (_now stamp : Z)
  (request : Request) (rate_limit_datas : list RequestState)
  : result unit * list RequestState :=
  let rate_limit_datas := _remove_olds _now (_window_time cfg) rate_limit_datas in
  match get_fields cfg request with
  | Raise e => (Raise e, rate_limit_datas)
  | Ok _fields =>
      let matcher :=
        match _match_method cfg with
        | OR => _or _fields
        | AND => _and _fields
        end in
      match count_last_requests matcher rate_limit_datas with
      | Raise e => (Raise e, rate_limit_datas)
      | Ok _last_request_count =>
          let rate_limit_datas :=
            rate_limit_datas ++ [ {| fields := _fields; timestamp := stamp |} ] in
          if _last_request_count >? _limit cfg
          then (Raise (HTTPException (_status_code cfg) (_message cfg)),
                rate_limit_datas)
          else (Ok tt, rate_limit_datas)
      end
  end.

(** The whole of [_rate_limit_middleware], its last line
    [return await call_next(request)] included: [call_next] is what
    awaiting [call_next(request)] gives, a response or an exception, and it
    is reached only by a request that is not denied. The rest of the
    application has no access to [rate_limit_datas]. *)
Definition with_call_next {R} (cfg : settings) (_now stamp : Z)
  (request : Request) (call_next : result R)
  (rate_limit_datas : list RequestState) : result R * list RequestState :=
  let '(r, rate_limit_datas) :=
    _rate_limit_middleware cfg _now stamp request rate_limit_datas in
  (let* _ := r in call_next, rate_limit_datas).

(** Requests served one after the other: each call carries the two clock
    readings made while it is handled. The outcomes are listed in order,
    next to the final [rate_limit_datas]. *)
Record call := {
  at_evict : Z;
  at_record : Z;
  request_of : Request
}.

Fixpoint serve (cfg : settings) (calls : list call)
  (rate_limit_datas : list RequestState)
  : list (result unit) * list RequestState :=
  match calls with
  | [] => ([], rate_limit_datas)
  | c :: calls' =>
      let '(r, datas1) :=
        _rate_limit_middleware cfg (at_evict c) (at_record c) (request_of c)
          rate_limit_datas in
      let '(rs, datas2) := serve cfg calls' datas1 in
      (r :: rs, datas2)
  end.

Definition admitted (r : result unit) : Prop := r = Ok tt.

Definition denied (cfg : settings) (r : result unit) : Prop :=
  r = Raise (HTTPException (_status_code cfg) (_message cfg)).

(** The window is in timestamp order. *)
Definition non_decreasing (rate_limit_datas : list RequestState) : Prop :=
  Sorted Z.le (timestamp <$> rate_limit_datas).

(** ** The matchers as the specification words them

    [spec_and A B]: every key of the stored snapshot [A] is in the incoming
    snapshot [B] with an equal value. [spec_or A B]: some key of [A] has a
    non-empty value and is in [B] with an equal value. *)
Definition lookup_key (d : list (string * value)) (key : string) : option value :=
  match getitem d key with
  | Ok v => Some v
  | Raise _ => None
  end.

Definition spec_and (A B : list (string * value)) : bool :=
  forallb (fun '(k, a) => bool_decide (lookup_key B k = Some a)) A.

Definition spec_or (A B : list (string * value)) : bool :=
  existsb (fun '(k, a) => truthy a && bool_decide (lookup_key B k = Some a)) A.

(** ** Auxiliary notions of the statements *)

(** The test of the loop of [_remove_olds], on one record. *)
Definition expired (_now wt : Z) (rs : RequestState) : Prop :=
  _now - timestamp rs > wt.

#[global] Instance expired_dec _now wt rs : Decision (expired _now wt rs).
Proof. unfold expired. apply _. Defined.

(** The exceptions that abort the middleware before a decision is made. *)
Definition crash (e : exn) : Prop :=
  match e with
  | HTTPException _ _ => False
  | _ => True
  end.

(** The matcher the middleware selects, applied to the incoming snapshot. *)
Definition matcher_of (cfg : settings) (_fields : list (string * value))
  : list (string * value) -> result bool :=
  match _match_method cfg with
  | OR => _or _fields
  | AND => _and _fields
  end.

(** The end of the middleware, given the count of matching records. *)
Definition outcome_for (cfg : settings) (_last_request_count : Z) : result unit :=
  if _last_request_count >? _limit cfg
  then Raise (HTTPException (_status_code cfg) (_message cfg))
  else Ok tt.

(** The settings with the match fields replaced. *)
Definition with_match_fields (fs : list MatchFields) (cfg : settings) : settings :=
  {| _match_fields := fs; _match_method := _match_method cfg;
     _window_time := _window_time cfg; _limit := _limit cfg;
     _status_code := _status_code cfg; _message := _message cfg |}.

(** What the extractor of one field yields on a request. *)
Definition extract (f : MatchFields) (request : Request) : result (option value) :=
  let* g := getitem _field_mapping (MatchFields_value f) in g request.

Import Config.

(** The module-level reads of [config.service.rate_limit] in
    [middlewares/rate_limiter.py], on a validated configuration. *)
Definition settings_of (c : RateLimitConfig) : option settings :=
  match window_time c, limit c, match_fields c, match_method c with
  | Some wt, Some lim, Some (FieldList fs), Some m =>
      Some {| _match_fields := fs; _match_method := m; _window_time := wt;
              _limit := lim; _status_code := status_code c;
              _message := message c |}
  | _, _, _, _ => None
  end.

(** ** Sample data *)

Definition a_request (host : string) : Request :=
  {| client := Some host; user_agent := None; cookies := ∅; authorization := None |}.

Definition seconds (n : Z) : Z := n * 1000000.

Definition limiter (fs : list MatchFields) (m : MatchMethod) (lim wt : Z) : settings :=
  {| _match_fields := fs; _match_method := m; _window_time := wt;
     _limit := lim; _status_code := 429; _message := Some (MStr "Too Many Requests") |}.

Definition at_time (t : Z) (request : Request) : call :=
  {| at_evict := t; at_record := t; request_of := request |}.

Definition stored_at (t : Z) (host : string) : RequestState :=
  {| fields := [("ip"%string, VStr host)]; timestamp := t |}.

Definition with_user_agent (host ua : string) : Request :=
  {| client := Some host; user_agent := Some ua; cookies := ∅; authorization := None |}.

Definition with_cookie (host name v : string) : Request :=
  {| client := Some host; user_agent := None; cookies := {[ name := v ]};
     authorization := None |}.

(** An excerpt of the phrases of [http.HTTPStatus]. *)
Definition phrase_excerpt (code : Z) : option string :=
  if code =? 429 then Some "Too Many Requests"%string
  else if code =? 403 then Some "Forbidden"%string
  else None.

Definition enabled_without_limit : RateLimitConfig :=
  {| enable := true; window_time := Some (seconds 60); limit := None;
     match_fields := Some (OneField IP); match_method := Some AND;
     status_code := 429; message := None |}.

Definition enabled_negative_limit : RateLimitConfig :=
  {| enable := true; window_time := Some (seconds 60); limit := Some (-1);
     match_fields := Some (OneField USERAGENT); match_method := Some OR;
     status_code := 429; message := None |}.

(** Three requests of one address, one second apart. *)
Definition three_calls : list call :=
  [ at_time 0 (a_request "1.1.1.1");
    at_time (seconds 1) (a_request "1.1.1.1");
    at_time (seconds 2) (a_request "1.1.1.1") ].

Ltac each_call :=
  repeat match goal with
         | |- forall _ : call, _ => intros ?
         | |- _ ∈ _ -> _ => intros [->|?]%elem_of_cons
         | H : _ ∈ [] |- _ => by apply elem_of_nil in H
         | H : _ ∈ _ :: _ |- _ => apply elem_of_cons in H as [->|H]
         end.

Ltac sorted_by_computation :=
  unfold non_decreasing; simpl;
  repeat first [ apply Sorted_nil | apply Sorted_cons
               | apply HdRel_nil | apply HdRel_cons | lia ].

(** ** [config.py]: [_map_files] and the files [load_config] reads *)

Module Loader.

(** [str | Iterable[str]] *)
Inductive names :=
| One (s : string)
| Many (l : list string).

(** [(x,) if isinstance(x, str) else x] *)
Definition as_iterable (x : names) : list string :=
  match x with
  | One s => [s]
  | Many l => l
  end.

Section map_files.

(** [pathlib.Path] and the callback are not of this repository: [Path] builds
    a path from a string, [with_suffix] may raise ([ValueError] on an
    invalid suffix or an empty name), [is_file] asks the file system, and
    the callback may raise as well (a YAML syntax error in [_load_yaml]). *)
Context {path E R : Type}.
Variable Path : string -> path.
Variable with_suffix : path -> string -> E + path.
Variable is_file : path -> bool.
Variable callback : path -> E + R.

Inductive failure :=
| IndexError                      (* suffixes[0] on an empty sequence *)
| Raised (e : E).

(** The inner loop [for suffix in suffixes]. *)
Fixpoint probe (p : path) (suffixes : list string) (result : list R)
  : failure + list R :=
  match suffixes with
  | [] => inr result
  | suffix :: suffixes' =>
      match with_suffix p suffix with
      | inl e => inl (Raised e)
      | inr path_with_suffix =>
          if is_file path_with_suffix
          then match callback path_with_suffix with
               | inl e => inl (Raised e)
               | inr r => probe p suffixes' (result ++ [r])
               end
          else probe p suffixes' result
      end
  end.

(** The outer loop [for filename in filenames]. *)
Fixpoint each_filename (filenames suffixes : list string) (result : list R)
  : failure + list R :=
  match filenames with
  | [] => inr result
  | filename :: filenames' =>
      match suffixes with
      | [] => inl IndexError
      | suffix0 :: _ =>
          match probe (Path (filename +:+ suffix0)) suffixes result with
          | inl e => inl e
          | inr result' => each_filename filenames' suffixes result'
          end
      end
  end.

Definition _map_files (filenames suffixes : names) : failure + list R :=
  each_filename (as_iterable filenames) (as_iterable suffixes) [].

End map_files.

Arguments IndexError {E}.
Arguments Raised {E} e.

(** [('config', 'prod.config') + ('dev.config',) if _is_dev else ()]: the
    conditional expression binds weaker than [+]. *)
Definition config_filenames (_is_dev : bool) : names :=
  if _is_dev
  then Many (["config"%string; "prod.config"%string] ++ ["dev.config"%string])
  else Many [].

Section load_config.

Context {path E V : Type}.
Variable Path : string -> path.
Variable with_suffix : path -> string -> E + path.
Variable is_file : path -> bool.
(** [_load_yaml], and [key.strip().lower().replace('-', '_')] *)
Variable _load_yaml : path -> E + list (string * V).
Variable _format_key : string -> string.

(** [config_dict.update({_format_key(k): v for k, v in config.items()})] *)
Definition update_formatted (config_dict config : list (string * V))
  : list (string * V) :=
  fold_left (fun d '(k, v) => Py.setitem d k v)
    (fold_left (fun d '(k, v) => Py.setitem d (_format_key k) v) config [])
    config_dict.

(** [config_dict] at the point where [load_config] builds [Config] from it. *)
Definition load_config_dict (_is_dev : bool) : failure + list (string * V) :=
  match _map_files Path with_suffix is_file _load_yaml
          (config_filenames _is_dev)
          (Many [".json"%string; ".yaml"%string; ".yml"%string]) with
  | inl e => inl e
  | inr configs => inr (fold_left update_formatted configs [])
  end.

End load_config.

End Loader.

(** ** [app.py]: [_path2import_path] *)

(** [relative_path.parts] is the list of the path's components. *)
Definition _path2import_path (parts : list string) : string :=
  let _path :=
    String.concat "."
      (map (fun part => if decide (part = ".."%string) then "."%string else part)
           parts) in
  if String.prefix ".." _path then _path else "." +:+ _path.

(** ** [structs/responses.py]: [BaseResponse] *)

Module Responses.

Section responses.

(** The data of a response, its headers, and the responses the routes
    build themselves are opaque. *)
Context {D H W : Type}.

(** [HTTPStatus(code).phrase]; [None] where [HTTPStatus(code)] raises. *)
Variable HTTPStatus_phrase : Z -> option string.

(** [BaseResponseModel(code=..., message=..., data=...).model_dump()]: after
    [model_post_init] the message is never [None]. *)
Record content := {
  code : Z;
  message : string;
  data : option D
}.

Record JSONResponse := {
  status_code : Z;
  body : content;
  headers : option H
}.

Inductive Response :=
| Base (r : JSONResponse)
| Other (r : W).

(** [BaseResponse(code, message, data, headers=headers)] with an [int] code.
    The message is whatever the caller passes; [BaseResponseModel], whose
    field is [message: str | None], rejects one that is not a string. *)
Definition BaseResponse (code : Z) (message : option Py.message) (data : option D)
  (headers : option H) : result Response :=
  let* message' :=
    match message with
    | None =>
        match HTTPStatus_phrase code with
        | Some phrase => Ok phrase
        | None => Raise ValueError
        end
    | Some (MStr m) => Ok m
    | Some (MList _) | Some (MDict _) => Raise ValidationError
    end in
  Ok (Base {| status_code := code;
              body := {| code := code; message := message'; data := data |};
              headers := headers |}).

End responses.

End Responses.

(** ** [handles/exception_handles.py] *)

Module ExceptionHandles.

(** The classes of the exceptions of the embedding, and the classes the
    handlers are registered under. *)
Inductive exc_class :=
| Exception_cls
| StarletteHTTPException_cls
| HTTPException_cls                (* fastapi.exceptions.HTTPException *)
| ServerException_cls
| KeyError_cls
| TypeError_cls
| AttributeError_cls
| ValueError_cls
| ValidationError_cls              (* pydantic's, a [ValueError] *)
| AssertionError_cls.

#[global] Instance exc_class_eq_dec : EqDecision exc_class.
Proof. solve_decision. Defined.

Definition class_name (c : exc_class) : string :=
  match c with
  | Exception_cls => "Exception"
  | StarletteHTTPException_cls => "starlette.exceptions.HTTPException"
  | HTTPException_cls => "fastapi.exceptions.HTTPException"
  | ServerException_cls => "ServerException"
  | KeyError_cls => "KeyError"
  | TypeError_cls => "TypeError"
  | AttributeError_cls => "AttributeError"
  | ValueError_cls => "ValueError"
  | ValidationError_cls => "ValidationError"
  | AssertionError_cls => "AssertionError"
  end.

(** [type(exc)] *)
Definition type_of (exc : exn) : exc_class :=
  match exc with
  | KeyError _ => KeyError_cls
  | TypeError => TypeError_cls
  | AttributeError => AttributeError_cls
  | ValueError => ValueError_cls
  | ValidationError => ValidationError_cls
  | AssertionError _ => AssertionError_cls
  | HTTPException _ _ => HTTPException_cls
  end.

(** [issubclass(c, k)]: FastAPI's [HTTPException] derives from Starlette's,
    pydantic's [ValidationError] from [ValueError], and every class from
    [Exception]. *)
Definition issubclass (c k : exc_class) : bool :=
  bool_decide (c = k) || bool_decide (k = Exception_cls)
  || (bool_decide (c = HTTPException_cls)
      && bool_decide (k = StarletteHTTPException_cls))
  || (bool_decide (c = ValidationError_cls)
      && bool_decide (k = ValueError_cls)).

Section handlers.

Context {D H W : Type}.
Variable HTTPStatus_phrase : Z -> option string.

(** A handler returns a response, or something that is not a response
    ([None]), or raises. *)
Definition handler : Type := exn -> result (option (@Responses.Response D H W)).

(** [_exception_handlers[exc]] *)
Fixpoint _get_handlers (_exception_handlers : list (exc_class * list handler))
  (exc : exc_class) : result (list handler) :=
  match _exception_handlers with
  | [] => Raise (KeyError (class_name exc))
  | (k, handlers) :: rest =>
      if decide (k = exc) then Ok handlers else _get_handlers rest exc
  end.

(** [if exc not in d: d[exc] = []] and [d[exc].append(handler)] *)
Fixpoint _add_handler (_exception_handlers : list (exc_class * list handler))
  (exc : exc_class) (h : handler) : list (exc_class * list handler) :=
  match _exception_handlers with
  | [] => [(exc, [h])]
  | (k, handlers) :: rest =>
      if decide (k = exc) then (k, handlers ++ [h]) :: rest
      else (k, handlers) :: _add_handler rest exc h
  end.

(** The loop over the handlers, followed by the bare [raise]; an empty
    list is the case [if not handlers: raise]. *)
Fixpoint run_handlers (handlers : list handler) (exc : exn)
  : result (@Responses.Response D H W) :=
  match handlers with
  | [] => Raise exc
  | h :: handlers' =>
      match h exc with
      | Raise e => Raise e
      | Ok (Some response) => Ok response
      | Ok None => run_handlers handlers' exc
      end
  end.

(** [_exception_handler_middleware]: [call_next] is what awaiting
    [call_next(request)] gives. The pair is the result of the [try]
    statement before [finally], with the flag [errored]. *)
Definition _exception_handler_middleware
  (_exception_handlers : list (exc_class * list handler)) (handle_all : bool)
  (call_next : result (@Responses.Response D H W))
  : result (@Responses.Response D H W) :=
  let '(outcome, errored) :=
    match call_next with
    | Ok resp => (Ok resp, false)
    | Raise exc =>
        if existsb (issubclass (type_of exc)) _exception_handlers.*1
        then
          match _get_handlers _exception_handlers (type_of exc) with
          | Raise e => (Raise e, true)
          | Ok handlers =>
              match run_handlers handlers exc with
              | Ok response => (Ok response, false)
              | Raise e => (Raise e, true)
              end
          end
        else (Raise exc, true)
    end in
  if handle_all && errored
  then Responses.BaseResponse HTTPStatus_phrase 500 None None None
  else outcome.

(** [BaseResponse(code=exc.status_code, message=exc.detail, headers=exc.headers)];
    the exceptions of the embedding carry no headers. *)
Definition _handle_http_exception : handler :=
  fun exc =>
    match exc with
    | HTTPException status_code detail =>
        let* response :=
          Responses.BaseResponse HTTPStatus_phrase status_code detail None None in
        Ok (Some response)
    | _ => Raise AttributeError
    end.

(** [exc.response]: none of the exceptions of the embedding has one. *)
Definition _handle_server_exception : handler :=
  fun exc => Raise AttributeError.

(** The registrations of [add_http_exception_handler] followed by
    [add_server_exception_handler], as [app.py] calls them. *)
Definition app_handlers : list (exc_class * list handler) :=
  _add_handler
    (_add_handler
       (_add_handler [] HTTPException_cls _handle_http_exception)
       StarletteHTTPException_cls _handle_http_exception)
    StarletteHTTPException_cls _handle_server_exception.

(** The two middlewares as [app.py] installs them: the rate limiter is
    added first and runs inside the exception middleware, which is added
    last with [handle_all] left at its default. [downstream] is what the
    rest of the application answers. *)
Definition dispatch (handle_all : bool) (cfg : settings) (_now stamp : Z)
  (request : Request) (rate_limit_datas : list RequestState)
  (downstream : result (@Responses.Response D H W))
  : result (@Responses.Response D H W) * list RequestState :=
  let '(r, rate_limit_datas') :=
    with_call_next cfg _now stamp request downstream rate_limit_datas in
  (_exception_handler_middleware app_handlers handle_all r, rate_limit_datas').

End handlers.

End ExceptionHandles.

(** ** [decorators/database_pagination.py] *)

Module Pagination.

Record InvalidParamError := {
  msg : string;
  param : string
}.

Section pagination.

(** SQLAlchemy's [Select] with its [offset] and [limit] methods, the rows
    [session.exec(statement).all()] returns, and the responses are not of
    this repository. *)
Context {Select Row Resp : Type}.
Variable select_offset : Select -> option Z -> Select.
Variable select_limit : Select -> option Z -> Select.
Variable exec_all : Select -> list Row.

Record LimitOffsetPage := {
  data : Select;
  limit : option Z;
  offset : option Z;
  min_limit : option Z;
  max_limit : option Z
}.

(** [LimitOffsetPage(data=response)] with the class defaults. *)
Definition page_of (response : Select) : LimitOffsetPage :=
  {| data := response; limit := None; offset := None;
     min_limit := Some 0; max_limit := None |}.

(** [str(x)] of an [int | None], as an f-string formats it. *)
Definition py_str (x : option Z) : string :=
  match x with
  | Some z => pretty z
  | None => "None"
  end.

(** [a is not None and b is not None and a < b] *)
Definition both_and_lt (a b : option Z) : bool :=
  match a, b with
  | Some x, Some y => x <? y
  | _, _ => false
  end.

Definition apply_pagination (self : LimitOffsetPage) : InvalidParamError + Select :=
  if both_and_lt (limit self) (min_limit self)
  then inl {| msg := "invalid limit, expect `limit >= " +:+ py_str (min_limit self)
                       +:+ "`, but got `" +:+ py_str (limit self) +:+ "`";
              param := "limit" |}
  else if both_and_lt (max_limit self) (limit self)
  then inl {| msg := "invalid limit, expect `limit <= " +:+ py_str (max_limit self)
                       +:+ "`, but got `" +:+ py_str (limit self) +:+ "`";
              param := "limit" |}
  else inr (select_limit (select_offset (data self) (offset self)) (limit self)).

(** What the decorated function returned. *)
Inductive returned :=
| ASelect (statement : Select)
| APage (page : LimitOffsetPage)
| AResponse (response : Resp).

(** What the handler returns: the value of the function as it is, or the
    generated response. *)
Inductive handled :=
| Untouched (response : returned)
| Generated (response : Resp).

(** The default [invalid_message], formatted. *)
Definition default_invalid_message (param msg : string) : string :=
  "invalid param `" +:+ param +:+ "`: " +:+ msg.

(** [_pagination_handler] of [use_limit_pagination], after the decorated
    function has returned [response]. *)
Definition _pagination_handler
  (response_generator : list Row -> Resp) (handle_select : bool)
  (invalid_code : Z) (invalid_message : string -> string -> string)
  (limit' offset' : option Z) (response : returned) : result handled :=
  let response :=
    match response with
    | ASelect statement => if handle_select then APage (page_of statement) else response
    | _ => response
    end in
  match response with
  | APage page =>
      let page :=
        {| data := data page;
           limit := match limit page with Some l => Some l | None => limit' end;
           offset := match offset page with Some o => Some o | None => offset' end;
           min_limit := min_limit page;
           max_limit := max_limit page |} in
      match apply_pagination page with
      | inl exc =>
          Raise (HTTPException invalid_code
                   (Some (MStr (invalid_message (param exc) (msg exc)))))
      | inr handled_statement =>
          Ok (Generated (response_generator (exec_all handled_statement)))
      end
  | _ => Ok (Untouched response)
  end.

End pagination.

End Pagination.

(** ['.' in name], as [_load_routers] tests the stem of a file. *)
Fixpoint has_dot (name : string) : bool :=
  match name with
  | EmptyString => false
  | String c name' =>
      if decide (String c EmptyString = "."%string) then true else has_dot name'
  end.

(** A path component [_load_routers] lets through: not empty, no dot. *)
Definition plain_part (part : string) : Prop :=
  part <> EmptyString /\ has_dot part = false.

(** The keys of a merged configuration: each once, each normalised. *)
Definition formatted_keys {V} (_format_key : string -> string)
  (d : list (string * V)) : Prop :=
  NoDup d.*1 /\ forall k, k ∈ d.*1 -> exists k0, k = _format_key k0.

(** The phrases of the statuses the examples use. *)
Definition status_phrases (code : Z) : option string :=
  if code =? 500 then Some "Internal Server Error"%string
  else phrase_excerpt code.

(** [d.get(key)]: the value, or [None]. *)
Definition get_or_none {V} (d : list (string * V)) (key : string) : option V :=
  match getitem d key with
  | Ok v => Some v
  | Raise _ => None
  end.

(** The value given by the last item of one loaded file whose normalised
    key is [key]. *)
Fixpoint last_formatted {V} (_format_key : string -> string)
  (config : list (string * V)) (key : string) : option V :=
  match config with
  | [] => None
  | (k, v) :: config' =>
      match last_formatted _format_key config' key with
      | Some v' => Some v'
      | None => if decide (_format_key k = key) then Some v else None
      end
  end.

(** The same over the loaded files, in loading order. *)
Fixpoint last_defined {V} (_format_key : string -> string)
  (configs : list (list (string * V))) (key : string) : option V :=
  match configs with
  | [] => None
  | config :: configs' =>
      match last_defined _format_key configs' key with
      | Some v => Some v
      | None => last_formatted _format_key config key
      end
  end.

(** * Properties *)

(** ** Eviction: [_remove_olds] *)

Section eviction.

Variables _now wt : Z.

Lemma expired_before rs : expired _now wt rs <-> timestamp rs < _now - wt.
Proof. unfold expired. lia. Qed.

Lemma filter_all_out (l : list RequestState) :
  (forall rs, rs ∈ l -> expired _now wt rs) ->
  filter (fun rs => ~ expired _now wt rs) l = [].
Proof.
  induction l as [|r l IH]; intros H; [done|].
  rewrite filter_cons_False; [|intros Hn; apply Hn, H; left].
  apply IH. intros rs Hrs. apply H. by right.
Qed.

Lemma filter_all_in (l : list RequestState) :
  (forall rs, rs ∈ l -> ~ expired _now wt rs) ->
  filter (fun rs => ~ expired _now wt rs) l = l.
Proof.
  induction l as [|r l IH]; intros H; [done|].
  rewrite filter_cons_True; [|apply H; left].
  f_equal. apply IH. intros rs Hrs. apply H. by right.
Qed.

(** The loop drops a prefix, whatever the order of the timestamps. *)
Lemma remove_olds_from_drop datas n :
  exists k, _remove_olds_from _now wt datas n = drop k datas.
Proof.
  induction n as [|index IH]; simpl.
  - by exists O.
  - destruct (datas !! index) as [rs|]; [|by exists O].
    destruct (_now - timestamp rs >? wt); [by eexists|done].
Qed.

Lemma sorted_lookup_le (l : list Z) i j x y :
  Sorted Z.le l -> (i <= j)%nat -> l !! i = Some x -> l !! j = Some y -> x <= y.
Proof.
  intros Hs. apply (Sorted_StronglySorted _) in Hs.
  revert i j. induction Hs as [|a l Hs IH Hall]; intros i j Hij Hi Hj; [done|].
  destruct i as [|i], j as [|j]; simpl in *; simplify_eq; try lia.
  - rewrite Forall_forall in Hall. apply Hall. by eapply list_elem_of_lookup_2.
  - eapply IH; [|done..]. lia.
Qed.

Lemma remove_olds_from_filter datas n :
  non_decreasing datas ->
  (n <= length datas)%nat ->
  (forall i rs, (n <= i)%nat -> datas !! i = Some rs -> ~ expired _now wt rs) ->
  _remove_olds_from _now wt datas n = filter (fun rs => ~ expired _now wt rs) datas.
Proof.
  intros Hs. induction n as [|index IH]; intros Hn Hkept; simpl.
  - symmetry. apply filter_all_in. intros rs [i Hi]%list_elem_of_lookup_1.
    apply (Hkept i); [lia|done].
  - destruct (lookup_lt_is_Some_2 datas index) as [rs Hrs]; [lia|].
    rewrite Hrs. destruct (Z.gtb_spec (_now - timestamp rs) wt) as [Hex|Hin].
    + rewrite <- (take_drop (S index) datas) at 2. rewrite filter_app.
      rewrite filter_all_out, filter_all_in; [done| |].
      * intros r [i Hi]%list_elem_of_lookup_1. rewrite lookup_drop in Hi.
        apply (Hkept (S index + i)%nat); [lia|done].
      * intros r (i & Hi & Hlt)%elem_of_take. unfold expired.
        assert (timestamp r <= timestamp rs); [|lia].
        apply (sorted_lookup_le (timestamp <$> datas) i index); [done|lia|..];
          rewrite list_lookup_fmap; [by rewrite Hi|by rewrite Hrs].
    + apply IH; [lia|]. intros i r Hi Hr.
      destruct (decide (i = index)) as [->|]; [|apply (Hkept i); [lia|done]].
      simplify_eq. unfold expired. lia.
Qed.

End eviction.

(** C4. On a window in timestamp order, [_remove_olds] at time [_now] with
    window duration [d] keeps exactly the records that are not strictly
    before [_now - d], unchanged and in their order: the records removed are
    those with [timestamp < _now - d], a record stamped [_now - d] is kept,
    and with [d = 0] everything strictly earlier than [_now] goes. *)
Theorem remove_olds_evicts_strictly_older (_now d : Z) (datas : list RequestState) :
  non_decreasing datas ->
  _remove_olds _now d datas
    = filter (fun rs => ~ timestamp rs < _now - d) datas
  /\ (forall rs, rs ∈ datas ->
        (rs ∈ _remove_olds _now d datas <-> ~ timestamp rs < _now - d))
  /\ (forall rs, rs ∈ datas -> timestamp rs = _now - d ->
        rs ∈ _remove_olds _now d datas)
  /\ (d = 0 ->
        _remove_olds _now d datas = filter (fun rs => ~ timestamp rs < _now) datas).
Proof.
  intros Hs.
  assert (_remove_olds _now d datas
          = filter (fun rs => ~ timestamp rs < _now - d) datas) as Heq.
  { unfold _remove_olds. rewrite (remove_olds_from_filter _now d datas); [|done|lia|].
    - apply list_filter_iff. intros rs. by rewrite expired_before.
    - intros i rs Hi Hrs. apply lookup_lt_Some in Hrs. lia. }
  split; [done|]. rewrite Heq. repeat split.
  - intros Hin. by apply list_elem_of_filter in Hin as [? _].
  - intros Hk. by apply list_elem_of_filter.
  - intros rs Hin Hts. apply list_elem_of_filter. split; [lia|done].
  - intros ->. apply list_filter_iff. intros rs. by rewrite Z.sub_0_r.
Qed.

(** ** What can be raised where *)

Lemma getitem_raise {V} (d : list (string * V)) key e :
  getitem d key = Raise e -> e = KeyError key.
Proof.
  induction d as [|[k v] d IH]; simpl; [congruence|].
  destruct (decide (k = key)); [congruence|done].
Qed.

Lemma map_seq_item_raise seq_2 ignore_empty key item e :
  _map_seq_item seq_2 ignore_empty key item = Raise e ->
  e = TypeError \/ e = KeyError key.
Proof.
  unfold _map_seq_item. intros H.
  assert (forall b, (if (b : bool) then Ok true
                     else let* v := getitem seq_2 key in Ok (eqb item v)) = Raise e ->
                    e = KeyError key) as Hget.
  { intros [] Hb; [done|]. destruct (getitem seq_2 key) eqn:Hg; [done|].
    apply getitem_raise in Hg. simpl in Hb. congruence. }
  destruct ignore_empty; simpl in H; [|right; by apply (Hget false)].
  destruct (truthy item); simpl in H; [|right; by apply (Hget true)].
  destruct item as [s|d]; simpl in H; [right; by apply (Hget (negb (has_key seq_2 s)))|].
  left. congruence.
Qed.

Lemma all_raise g e : all g = Raise e -> Raise e ∈ g.
Proof.
  induction g as [|[[]|e'] g IH]; simpl; intros H; try done.
  - right. by apply IH.
  - injection H as ->. left.
Qed.

Lemma any_raise g e : any g = Raise e -> Raise e ∈ g.
Proof.
  induction g as [|[[]|e'] g IH]; simpl; intros H; try done.
  - right. by apply IH.
  - injection H as ->. left.
Qed.

Lemma map_seq_raise seq_1 seq_2 ignore_empty e :
  Raise e ∈ _map_seq seq_1 seq_2 ignore_empty -> crash e.
Proof.
  unfold _map_seq. intros ([key item] & Hi & _)%list_elem_of_fmap.
  symmetry in Hi. by apply map_seq_item_raise in Hi as [-> | ->].
Qed.

Lemma matcher_raise (m : MatchMethod) _fields stored e :
  match m with OR => _or _fields | AND => _and _fields end stored = Raise e ->
  crash e.
Proof.
  destruct m; unfold _and, _or; intros H.
  - apply all_raise in H. by eapply map_seq_raise.
  - apply any_raise in H. by eapply map_seq_raise.
Qed.

Lemma count_last_requests_raise matcher datas e :
  count_last_requests matcher datas = Raise e ->
  exists rs, rs ∈ datas /\ matcher (fields rs) = Raise e.
Proof.
  induction datas as [|rs datas IH]; simpl; [done|].
  destruct (matcher (fields rs)) as [b|e'] eqn:Hm; simpl.
  - destruct (count_last_requests matcher datas) as [n|e'']; simpl; [done|].
    intros [= ->]. destruct IH as (rs' & Hin & Hr); [done|].
    exists rs'. split; [by right|done].
  - intros [= ->]. exists rs. split; [left|done].
Qed.

Lemma extract_all_raise request fs acc e :
  extract_all request fs acc = Raise e -> crash e.
Proof.
  revert acc. induction fs as [|f fs IH]; intros acc; simpl; [done|].
  destruct f; simpl; try apply IH.
  destruct (client request); simpl; [apply IH|]. by intros [= <-].
Qed.

Lemma get_fields_raise cfg request e :
  get_fields cfg request = Raise e -> crash e.
Proof.
  unfold get_fields.
  destruct (extract_all request (_match_fields cfg) []) eqn:He; simpl; [done|].
  intros [= <-]. by eapply extract_all_raise.
Qed.

(** The three ways the middleware can end. *)
Lemma middleware_cases cfg _now stamp request datas :
  let evicted := _remove_olds _now (_window_time cfg) datas in
  let r := _rate_limit_middleware cfg _now stamp request datas in
  (exists e, crash e /\ r = (Raise e, evicted))
  \/ (exists _fields n,
        get_fields cfg request = Ok _fields
        /\ count_last_requests
             (match _match_method cfg with OR => _or _fields | AND => _and _fields end)
             evicted = Ok n
        /\ r = (if n >? _limit cfg
                then Raise (HTTPException (_status_code cfg) (_message cfg))
                else Ok tt,
                evicted ++ [ {| fields := _fields; timestamp := stamp |} ])).
Proof.
  intros evicted r. subst r. unfold _rate_limit_middleware. fold evicted.
  destruct (get_fields cfg request) as [_fields|e] eqn:Hf.
  - destruct (count_last_requests _ evicted) as [n|e] eqn:Hc.
    + right. exists _fields, n. repeat split; [done|]. by destruct (n >? _limit cfg).
    + left. exists e. split; [|done].
      apply count_last_requests_raise in Hc as (rs & _ & Hr).
      by eapply matcher_raise.
  - left. exists e. split; [by eapply get_fields_raise|done].
Qed.

(** X27. A call that ends in a decision (the request is forwarded, or the
    configured [HTTPException] is raised) leaves the evicted window followed
    by exactly one new record, the incoming snapshot stamped with the
    current time; the records that survive the eviction are untouched. *)
Theorem middleware_appends_one_record cfg _now stamp request datas r datas' :
  _rate_limit_middleware cfg _now stamp request datas = (r, datas') ->
  admitted r \/ denied cfg r ->
  exists _fields,
    get_fields cfg request = Ok _fields
    /\ datas' = _remove_olds _now (_window_time cfg) datas
                  ++ [ {| fields := _fields; timestamp := stamp |} ].
Proof.
  intros Hm Hr.
  destruct (middleware_cases cfg _now stamp request datas)
    as [(e & Hc & He) | (_fields & n & Hf & _ & He)]; simpl in *.
  - rewrite Hm in He. injection He as -> ->.
    destruct Hr as [Hr|Hr]; [done|]. unfold denied in Hr.
    injection Hr as ->. done.
  - rewrite Hm in He. injection He as -> ->. by exists _fields.
Qed.

(** ** The window stays in timestamp order *)

Lemma StronglySorted_sublist {A} (R : relation A) (l l' : list A) :
  l' `sublist_of` l -> StronglySorted R l -> StronglySorted R l'.
Proof.
  induction 1 as [|x l1 l2 Hsub IH|x l1 l2 Hsub IH]; intros Hs.
  - constructor.
  - apply StronglySorted_inv in Hs as [Hs Hall]. constructor; [by apply IH|].
    rewrite Forall_forall in Hall |- *. intros y Hy. apply Hall.
    by eapply sublist_subseteq.
  - apply StronglySorted_inv in Hs as [Hs _]. by apply IH.
Qed.

Lemma middleware_timestamps cfg _now stamp request datas :
  let datas' := snd (_rate_limit_middleware cfg _now stamp request datas) in
  (timestamp <$> datas') `sublist_of` (timestamp <$> datas) ++ [stamp].
Proof.
  destruct (middleware_cases cfg _now stamp request datas)
    as [(e & _ & He) | (_fields & n & _ & _ & He)]; simpl in *; rewrite He; simpl;
    unfold _remove_olds;
    destruct (remove_olds_from_drop _now (_window_time cfg) datas (length datas))
      as [k ->].
  - apply sublist_inserts_r. rewrite fmap_drop. apply sublist_drop.
  - rewrite fmap_app. apply sublist_app; [|done].
    rewrite fmap_drop. apply sublist_drop.
Qed.

Lemma serve_sorted cfg calls datas :
  StronglySorted Z.le ((timestamp <$> datas) ++ (at_record <$> calls)) ->
  StronglySorted Z.le (timestamp <$> (serve cfg calls datas).2).
Proof.
  revert datas. induction calls as [|c calls IH]; intros datas Hs; simpl.
  - by rewrite app_nil_r in Hs.
  - pose proof (middleware_timestamps cfg (at_evict c) (at_record c)
                  (request_of c) datas) as Hsub. simpl in Hsub.
    destruct (_rate_limit_middleware _ _ _ _ _) as [r datas1]. simpl in Hsub.
    specialize (IH datas1).
    destruct (serve cfg calls datas1) as [rs datas2]. simpl in *.
    apply IH. eapply StronglySorted_sublist; [|exact Hs].
    rewrite (cons_middle (at_record c)), app_assoc.
    by apply sublist_app.
Qed.

(** C8. Calls served one after the other from the empty window, with the
    clock read at each recording not going backwards, leave the window in
    timestamp order after each call. *)
Theorem serve_keeps_timestamp_order cfg (calls : list call) :
  Sorted Z.le (at_record <$> calls) ->
  forall n, non_decreasing (serve cfg (take n calls) []).2.
Proof.
  intros Hs n. apply StronglySorted_Sorted, serve_sorted. simpl.
  rewrite fmap_take. eapply StronglySorted_sublist; [apply sublist_take|].
  by apply (Sorted_StronglySorted _).
Qed.

(** ** Configuration: [RateLimitConfig.verify_fields] *)

(** C7. With limiting enabled, a configuration that lacks the window
    duration, the limit, the match fields or the match method is refused by
    [verify_fields] with an assertion error, and so is every service
    configuration that contains it; a configuration that is accepted carries
    the four values it was given, none of them filled in. With limiting
    disabled the configuration is accepted as it is, whatever is absent. *)
Theorem verify_fields_requires_all (phrase : Z -> option string)
  (self : RateLimitConfig) :
  (enable self = true ->
   window_time self = None \/ limit self = None
   \/ match_fields self = None \/ match_method self = None ->
   exists msg,
     verify_fields phrase self = Raise (AssertionError msg)
     /\ forall db,
          ServiceConfig_validate phrase {| rate_limit := self; database := db |}
          = Raise (AssertionError msg))
  /\ (forall self',
        enable self = true -> verify_fields phrase self = Ok self' ->
        is_Some (window_time self) /\ window_time self' = window_time self
        /\ is_Some (limit self) /\ limit self' = limit self
        /\ is_Some (match_fields self)
        /\ is_Some (match_method self) /\ match_method self' = match_method self)
  /\ (enable self = false -> verify_fields phrase self = Ok self).
Proof.
  destruct self as [en wt lim mf mm sc msg]; simpl. split; [|split].
  - intros -> Habsent.
    assert (exists m, verify_fields phrase
                        {| enable := true; window_time := wt; limit := lim;
                           match_fields := mf; match_method := mm;
                           status_code := sc; message := msg |}
                      = Raise (AssertionError m)) as [m Hm].
    { unfold verify_fields; simpl.
      destruct wt; [|by eexists]. destruct lim; [|by eexists].
      destruct mf; [|by eexists]. destruct mm; [|by eexists].
      by destruct Habsent as [?|[?|[?|?]]]. }
    exists m. split; [done|]. intros db. unfold ServiceConfig_validate; simpl.
    by rewrite Hm.
  - intros self' -> Hok. unfold verify_fields in Hok; simpl in Hok.
    destruct wt, lim, mf, mm; simpl in Hok; try done.
    destruct msg; simpl in Hok;
      [|destruct (phrase sc); simpl in Hok; [|done]];
      injection Hok as <-; simpl; naive_solver.
  - by intros ->.
Qed.

(** An enabled configuration that is accepted provides all the settings
    the middleware reads. *)
Lemma verify_fields_settings (phrase : Z -> option string)
  (self self' : RateLimitConfig) :
  enable self = true -> verify_fields phrase self = Ok self' ->
  exists cfg, settings_of self' = Some cfg
    /\ Some (_window_time cfg) = window_time self
    /\ Some (_limit cfg) = limit self
    /\ Some (_match_method cfg) = match_method self.
Proof.
  destruct self as [en wt lim mf mm sc msg]; simpl. intros -> Hok.
  unfold verify_fields in Hok; simpl in Hok.
  destruct wt, lim, mf as [[f|fs]|], mm; simpl in Hok; try done;
    (destruct msg; simpl in Hok;
       [|destruct (phrase sc); simpl in Hok; [|done]]);
    injection Hok as <-; by eexists.
Qed.

(** ** The matchers *)

Lemma getitem_lookup_key (d : list (string * value)) key v :
  getitem d key = Ok v <-> lookup_key d key = Some v.
Proof.
  unfold lookup_key. destruct (getitem d key); split; congruence.
Qed.

Lemma has_key_getitem (d : list (string * value)) key :
  has_key d key = true <-> exists v, getitem d key = Ok v.
Proof.
  induction d as [|[k v] d IH]; simpl.
  - split; [done|]. by intros [? ?].
  - destruct (decide (k = key)); [|done]. split; [by eexists|done].
Qed.

(** The generator of [_and] compares [item] with [seq_2[key]]. *)
Lemma and_item seq_2 key item :
  _map_seq_item seq_2 false key item
  = let* v := getitem seq_2 key in Ok (eqb item v).
Proof. done. Qed.

Lemma and_true_iff (B A : list (string * value)) :
  _and B A = Ok true <-> forall k b, (k, b) ∈ B -> lookup_key A k = Some b.
Proof.
  unfold _and, _map_seq. induction B as [|[k b] B IH]; simpl.
  - split; [|done]. intros _ k b Hin. by apply elem_of_nil in Hin.
  - rewrite and_item. destruct (getitem A k) as [v|e] eqn:Hg; simpl.
    + unfold eqb. destruct (bool_decide_reflect (b = v)) as [<-|Hne].
      * rewrite IH. split.
        -- intros H k' b' [[= -> ->]|Hin]%elem_of_cons; [|by apply H].
           by apply getitem_lookup_key.
        -- intros H k' b' Hin. apply H. by right.
      * split; [done|]. intros H. exfalso. apply Hne.
        specialize (H k b (list_elem_of_here _ _)).
        apply getitem_lookup_key in H. congruence.
    + split; [done|]. intros H. specialize (H k b (list_elem_of_here _ _)).
      apply getitem_lookup_key in H. congruence.
Qed.

Lemma and_within (B A : list (string * value)) :
  (forall k b, (k, b) ∈ B -> has_key A k = true) ->
  _and B A = Ok (spec_and B A).
Proof.
  unfold _and, _map_seq, spec_and. induction B as [|[k b] B IH]; intros Hk; simpl.
  - done.
  - rewrite and_item.
    destruct (proj1 (has_key_getitem A k)) as [v Hv]; [apply (Hk k b); left|].
    rewrite Hv. simpl. unfold eqb.
    rewrite (proj1 (getitem_lookup_key A k v) Hv).
    destruct (bool_decide_reflect (b = v)) as [<-|Hne].
    + rewrite bool_decide_eq_true_2 by done. simpl. apply IH.
      intros k' b' Hin. apply (Hk k' b'). by right.
    + rewrite bool_decide_eq_false_2; [done|]. congruence.
Qed.

(** C2, as the code has it. The AND matcher is called with the incoming
    snapshot [B] first and the stored snapshot [A] second: it returns true
    iff every key of [B] is in [A] with an equal value, and when every key
    of [B] is in [A] it returns, without raising, whether all the values
    agree. Values are compared exactly, mappings by their content. *)
Theorem and_matches_incoming_within_stored (A B : list (string * value)) :
  (_and B A = Ok true <-> forall k b, (k, b) ∈ B -> lookup_key A k = Some b)
  /\ ((forall k b, (k, b) ∈ B -> has_key A k = true) ->
      _and B A = Ok (spec_and B A))
  /\ (forall (s t : string), eqb (VStr s) (VStr t) = true <-> s = t)
  /\ (forall (c d : gmap string string),
        eqb (VDict c) (VDict d) = true <-> forall name, c !! name = d !! name).
Proof.
  split; [apply and_true_iff|]. split; [apply and_within|]. split.
  - intros s t. unfold eqb. rewrite bool_decide_eq_true. naive_solver.
  - intros c d. unfold eqb. rewrite bool_decide_eq_true. split.
    + by intros [= ->].
    + intros H. f_equal. by apply map_eq.
Qed.

(** ** Counting and the decision *)

Lemma count_all_true matcher datas :
  (forall rs, rs ∈ datas -> matcher (fields rs) = Ok true) ->
  count_last_requests matcher datas = Ok (Z.of_nat (length datas)).
Proof.
  induction datas as [|rs datas IH]; intros H; [done|].
  cbn [count_last_requests length]. rewrite (H rs) by left. simpl.
  rewrite IH by (intros rs' Hin; apply H; by right). simpl. f_equal. lia.
Qed.

Lemma count_all_false matcher datas :
  (forall rs, rs ∈ datas -> matcher (fields rs) = Ok false) ->
  count_last_requests matcher datas = Ok 0.
Proof.
  induction datas as [|rs datas IH]; intros H; [done|].
  cbn [count_last_requests]. rewrite (H rs) by left. simpl.
  by rewrite IH by (intros rs' Hin; apply H; by right).
Qed.

(** C10, as the code has it. For a request whose snapshot is empty, the AND
    matcher is true and the OR matcher is false against every stored
    snapshot. Under AND the request is counted against every record left in
    the window: it is denied iff the window holds more than [_limit]
    records, and admitted otherwise. Under OR nothing is counted: it is
    admitted iff [_limit] is not negative. *)
Theorem empty_snapshot_decision cfg _now stamp request datas :
  get_fields cfg request = Ok [] ->
  let evicted := _remove_olds _now (_window_time cfg) datas in
  let r := (_rate_limit_middleware cfg _now stamp request datas).1 in
  (forall stored, _and [] stored = Ok true)
  /\ (forall stored, _or [] stored = Ok false)
  /\ (_match_method cfg = AND ->
      (denied cfg r <-> Z.of_nat (length evicted) > _limit cfg)
      /\ (admitted r <-> Z.of_nat (length evicted) <= _limit cfg))
  /\ (_match_method cfg = OR ->
      (admitted r <-> 0 <= _limit cfg) /\ (denied cfg r <-> _limit cfg < 0)).
Proof.
  intros Hf evicted r. split; [done|]. split; [done|].
  subst r. unfold _rate_limit_middleware. fold evicted. rewrite Hf.
  unfold admitted, denied. split; intros ->.
  - rewrite count_all_true by done.
    destruct (Z.gtb_spec (Z.of_nat (length evicted)) (_limit cfg)); simpl;
      split; split; intros; try done; lia.
  - rewrite count_all_false by done.
    destruct (Z.gtb_spec 0 (_limit cfg)); simpl;
      split; split; intros; try done; lia.
Qed.

(** ** Requests that share one correlating key *)

Lemma remove_olds_from_keep _now wt datas n :
  (forall rs, rs ∈ datas -> ~ expired _now wt rs) ->
  _remove_olds_from _now wt datas n = datas.
Proof.
  intros Hkeep. induction n as [|index IH]; simpl; [done|].
  destruct (datas !! index) as [rs|] eqn:Hrs; [|done].
  destruct (Z.gtb_spec (_now - timestamp rs) wt) as [Hex|_]; [|exact IH].
  exfalso. apply (Hkeep rs); [by eapply list_elem_of_lookup_2|].
  unfold expired. lia.
Qed.

Lemma serve_length cfg calls datas :
  length (serve cfg calls datas).1 = length calls.
Proof.
  revert datas. induction calls as [|c calls IH]; intros datas; simpl; [done|].
  destruct (_rate_limit_middleware _ _ _ _ _) as [r datas1].
  specialize (IH datas1). destruct (serve cfg calls datas1). simpl in *. lia.
Qed.

(** One request against a window of live records that all carry its key. *)
Lemma middleware_same_key cfg _now stamp request datas F :
  get_fields cfg request = Ok F ->
  matcher_of cfg F F = Ok true ->
  (forall rs, rs ∈ datas ->
     fields rs = F /\ _now - timestamp rs <= _window_time cfg) ->
  _rate_limit_middleware cfg _now stamp request datas
  = (outcome_for cfg (Z.of_nat (length datas)),
     datas ++ [ {| fields := F; timestamp := stamp |} ]).
Proof.
  intros Hf Hm Hdatas. unfold _rate_limit_middleware, _remove_olds.
  rewrite remove_olds_from_keep, Hf.
  - change (match _match_method cfg with OR => _or F | AND => _and F end)
      with (matcher_of cfg F).
    rewrite count_all_true.
    + unfold outcome_for. by destruct (_ >? _).
    + intros rs Hrs. by destruct (Hdatas rs Hrs) as [-> _].
  - intros rs Hrs. destruct (Hdatas rs Hrs) as [_ Hlive]. unfold expired. lia.
Qed.

Lemma serve_same_key cfg F calls datas :
  (forall c, c ∈ calls -> get_fields cfg (request_of c) = Ok F) ->
  matcher_of cfg F F = Ok true ->
  (forall rs, rs ∈ datas -> fields rs = F) ->
  (forall c rs, c ∈ calls -> rs ∈ datas ->
     at_evict c - timestamp rs <= _window_time cfg) ->
  (forall c c', c ∈ calls -> c' ∈ calls ->
     at_evict c - at_record c' <= _window_time cfg) ->
  forall k r, (serve cfg calls datas).1 !! k = Some r ->
    r = outcome_for cfg (Z.of_nat (length datas + k)).
Proof.
  intros Hf Hm. revert datas.
  induction calls as [|c calls IH]; intros datas HF Hdatas Hcalls k r; simpl; [done|].
  rewrite (middleware_same_key cfg _ _ _ datas F); [|apply Hf; left|done|].
  - specialize (IH (fun c' Hc' => Hf c' (list_elem_of_further _ _ _ Hc'))
                  (datas ++ [ {| fields := F; timestamp := at_record c |} ])).
    assert (forall k r, (serve cfg calls
                           (datas ++ [ {| fields := F; timestamp := at_record c |} ])).1
                        !! k = Some r ->
                        r = outcome_for cfg (Z.of_nat (S (length datas) + k))) as IH'.
    { intros k' r' Hk'. apply IH in Hk'.
      - rewrite Hk', length_app. simpl. do 2 f_equal. lia.
      - intros rs' [Hin|Hin%list_elem_of_singleton]%elem_of_app;
          [by apply HF|by subst].
      - intros c' rs' Hc' [Hin|Hin%list_elem_of_singleton]%elem_of_app.
        + apply Hdatas; [by right|done].
        + subst. simpl. apply Hcalls; [by right|left].
      - intros c1 c2 H1 H2. apply Hcalls; by right. }
    destruct (serve cfg calls _) as [rs datas2]. simpl in *.
    destruct k as [|k]; simpl.
    + intros [= <-]. by rewrite Nat.add_0_r.
    + intros Hk. rewrite (IH' k r Hk). do 2 f_equal. lia.
  - intros rs Hrs. split; [by apply HF|]. apply Hdatas; [left|done].
Qed.

(** Requests with one and the same snapshot [F], which the selected
    matcher relates to itself, all served within one live window starting
    from the empty window: request number [k + 1] is admitted iff
    [k + 1 <= _limit + 1] and denied iff [k + 1 > _limit + 1]. *)
Theorem same_key_sequence cfg F (calls : list call) :
  (forall c, c ∈ calls -> get_fields cfg (request_of c) = Ok F) ->
  matcher_of cfg F F = Ok true ->
  (forall c c', c ∈ calls -> c' ∈ calls ->
     at_evict c - at_record c' <= _window_time cfg) ->
  forall k, (k < length calls)%nat ->
    exists r, (serve cfg calls []).1 !! k = Some r
      /\ (admitted r <-> Z.of_nat (S k) <= _limit cfg + 1)
      /\ (denied cfg r <-> Z.of_nat (S k) > _limit cfg + 1).
Proof.
  intros Hf Hm Hlive k Hk.
  destruct (lookup_lt_is_Some_2 (serve cfg calls []).1 k) as [r Hr];
    [by rewrite serve_length|].
  exists r. split; [done|].
  rewrite (serve_same_key cfg F calls [] Hf Hm) with (k := k) (r := r); try done.
  - unfold outcome_for, admitted, denied. simpl.
    destruct (Z.gtb_spec (Z.of_nat k) (_limit cfg)); split; split; intros;
      try done; lia.
  - intros rs Hin. by apply elem_of_nil in Hin.
  - intros c rs _ Hin. by apply elem_of_nil in Hin.
Qed.

(** The snapshot built by [get_fields] has no key twice. *)
Lemma setitem_keys {V} (d : list (string * V)) key v x :
  x ∈ (setitem d key v).*1 -> x ∈ d.*1 \/ x = key.
Proof.
  induction d as [|[k v0] d IH]; simpl.
  - intros ->%list_elem_of_singleton. by right.
  - destruct (decide (k = key)); simpl; [by left|].
    intros [->|Hin]%elem_of_cons; [left; left|].
    destruct (IH Hin) as [?|?]; [left; by right|by right].
Qed.

Lemma setitem_NoDup {V} (d : list (string * V)) key v :
  NoDup d.*1 -> NoDup (setitem d key v).*1.
Proof.
  induction d as [|[k v0] d IH]; simpl; intros Hd.
  - apply NoDup_singleton.
  - destruct (decide (k = key)); simpl; [done|].
    apply NoDup_cons in Hd as [Hk Hd]. apply NoDup_cons. split; [|by apply IH].
    intros [?|?]%setitem_keys; [done|congruence].
Qed.

Lemma extract_all_NoDup request fs acc d :
  NoDup acc.*1 -> extract_all request fs acc = Ok d -> NoDup d.*1.
Proof.
  revert acc. induction fs as [|f fs IH]; intros acc Hacc; cbn [extract_all].
  - by intros [= <-].
  - destruct (getitem _field_mapping (MatchFields_value f)) as [g|];
      cbn [bind]; [|done].
    destruct (g request) as [v|]; cbn [bind]; [|done].
    apply IH. by apply setitem_NoDup.
Qed.

Lemma not_none_keys d : (not_none d).*1 `sublist_of` d.*1.
Proof.
  induction d as [|[k [v|]] d IH]; simpl; [done|by constructor..].
Qed.

Lemma get_fields_NoDup cfg request F :
  get_fields cfg request = Ok F -> NoDup F.*1.
Proof.
  unfold get_fields.
  destruct (extract_all request (_match_fields cfg) []) as [d|] eqn:He; simpl; [|done].
  intros [= <-]. eapply sublist_NoDup; [|apply not_none_keys].
  eapply extract_all_NoDup; [|done]. constructor.
Qed.

Lemma getitem_NoDup (F : list (string * value)) k b :
  NoDup F.*1 -> (k, b) ∈ F -> getitem F k = Ok b.
Proof.
  induction F as [|[k0 v0] F IH]; simpl; intros Hd Hin; [by apply elem_of_nil in Hin|].
  apply NoDup_cons in Hd as [Hk0 Hd].
  apply elem_of_cons in Hin as [[= -> ->]|Hin]; [by rewrite decide_True|].
  destruct (decide (k0 = k)) as [->|]; [|by apply IH].
  exfalso. apply Hk0. apply list_elem_of_fmap. by exists (k, b).
Qed.

Lemma and_refl (F : list (string * value)) : NoDup F.*1 -> _and F F = Ok true.
Proof.
  intros Hd. apply and_true_iff. intros k b Hin.
  by apply getitem_lookup_key, getitem_NoDup.
Qed.

(** [any] stops at the first element of the generator of [_or] when the
    first value is a string or an empty mapping. *)
Lemma or_refl (F : list (string * value)) k v F' :
  F = (k, v) :: F' ->
  (forall d, v = VDict d -> d = ∅) ->
  _or F F = Ok true.
Proof.
  intros -> Hv. unfold _or, _map_seq. cbn [map]. unfold _map_seq_item.
  destruct v as [s|d].
  - cbn [truthy contains bind getitem]. rewrite decide_True by done.
    destruct (bool_decide (s = EmptyString)); simpl; [done|].
    destruct (negb _); [done|].
    unfold eqb. by rewrite bool_decide_eq_true_2.
  - rewrite (Hv d eq_refl). cbn [truthy]. by rewrite bool_decide_eq_true_2.
Qed.

(** X22. Under AND, requests with one and the same snapshot, all served
    within one live window starting from the empty window, are admitted up
    to request number [_limit + 1] and denied from then on, whatever the
    snapshot holds. *)
Theorem same_key_sequence_and cfg F (calls : list call) :
  _match_method cfg = AND ->
  (forall c, c ∈ calls -> get_fields cfg (request_of c) = Ok F) ->
  (forall c c', c ∈ calls -> c' ∈ calls ->
     at_evict c - at_record c' <= _window_time cfg) ->
  forall k, (k < length calls)%nat ->
    exists r, (serve cfg calls []).1 !! k = Some r
      /\ (admitted r <-> Z.of_nat (S k) <= _limit cfg + 1)
      /\ (denied cfg r <-> Z.of_nat (S k) > _limit cfg + 1).
Proof.
  intros Hand Hf Hlive k Hk. apply (same_key_sequence cfg F calls); try done.
  unfold matcher_of. rewrite Hand. apply and_refl.
  destruct calls as [|c calls]; [simpl in Hk; lia|].
  apply (get_fields_NoDup cfg (request_of c)). apply Hf. left.
Qed.

(** X23. Under OR the same holds when the first value of the shared
    snapshot is a string or an empty cookie mapping. *)
Theorem same_key_sequence_or cfg k0 v0 F (calls : list call) :
  _match_method cfg = OR ->
  (forall d, v0 = VDict d -> d = ∅) ->
  (forall c, c ∈ calls -> get_fields cfg (request_of c) = Ok ((k0, v0) :: F)) ->
  (forall c c', c ∈ calls -> c' ∈ calls ->
     at_evict c - at_record c' <= _window_time cfg) ->
  forall k, (k < length calls)%nat ->
    exists r, (serve cfg calls []).1 !! k = Some r
      /\ (admitted r <-> Z.of_nat (S k) <= _limit cfg + 1)
      /\ (denied cfg r <-> Z.of_nat (S k) > _limit cfg + 1).
Proof.
  intros Hor Hv Hf Hlive k Hk.
  apply (same_key_sequence cfg ((k0, v0) :: F) calls); try done.
  unfold matcher_of. rewrite Hor. by eapply or_refl.
Qed.

(** ** The order of the match fields *)

#[local] Instance MatchFields_value_inj : Inj (=) (=) MatchFields_value.
Proof. intros [] []; simpl; congruence. Qed.

Lemma setitem_elem {V} (d : list (string * V)) key v0 k v :
  NoDup d.*1 ->
  (k, v) ∈ setitem d key v0 <-> (k = key /\ v = v0) \/ (k <> key /\ (k, v) ∈ d).
Proof.
  induction d as [|[k1 v1] d IH]; simpl; intros Hd.
  - rewrite list_elem_of_singleton, elem_of_nil.
    split; [intros [= -> ->]; by left|intros [[-> ->]|[_ []]]; done].
  - apply NoDup_cons in Hd as [Hk1 Hd].
    destruct (decide (k1 = key)) as [->|Hne]; rewrite !elem_of_cons.
    + split.
      * intros [[= -> ->]|Hin]; [by left|]. right. split; [|by right].
        intros ->. apply Hk1. apply list_elem_of_fmap. by exists (key, v).
      * intros [[-> ->]|[Hk [[= -> ->]|Hin]]]; [by left|done|by right].
    + rewrite IH by done.
      split; [intros [[= -> ->]|[?|?]]|intros [?|[? [[= -> ->]|?]]]];
        intuition congruence.
Qed.

Lemma extract_all_elem request fs acc d k v :
  NoDup acc.*1 ->
  extract_all request fs acc = Ok d ->
  (k, v) ∈ d <->
  ((k, v) ∈ acc /\ forall f, f ∈ fs -> k <> MatchFields_value f)
  \/ (exists f, f ∈ fs /\ k = MatchFields_value f /\ extract f request = Ok v).
Proof.
  revert acc. induction fs as [|f fs IH]; intros acc Hacc; cbn [extract_all].
  - intros [= <-]. split; [intros Hin; left; split; [done|]|].
    + intros f Hf. by apply elem_of_nil in Hf.
    + intros [[Hin _]|(f & Hf & _)]; [done|by apply elem_of_nil in Hf].
  - destruct (getitem _field_mapping (MatchFields_value f)) as [g|] eqn:Hg;
      cbn [bind]; [|done].
    destruct (g request) as [v0|] eqn:Hv0; cbn [bind]; [|done].
    assert (extract f request = Ok v0) as Hf.
    { unfold extract. by rewrite Hg. }
    intros Hd. rewrite (IH _ (setitem_NoDup acc _ v0 Hacc) Hd).
    rewrite setitem_elem by done. split.
    + intros [[[[-> ->]|[Hk Hin]] Hfs]|(f' & Hf' & Hk & Hv)].
      * right. exists f. split; [left|done].
      * left. split; [done|]. intros f' [->|Hf']%elem_of_cons; [done|by apply Hfs].
      * right. exists f'. split; [by right|done].
    + intros [[Hin Hfs]|(f' & [->|Hf']%elem_of_cons & Hk & Hv)].
      * left. split.
        -- right. split; [apply Hfs; left|done].
        -- intros f' Hf'. apply Hfs. by right.
      * destruct (decide (f ∈ fs)) as [Hin|Hnin].
        -- right. by exists f.
        -- left. split; [left; split; [done|congruence]|].
           intros f' Hf' Heq. apply Hnin. rewrite Hk in Heq.
           by rewrite (inj MatchFields_value _ _ Heq).
      * right. by exists f'.
Qed.

Lemma not_none_elem d k v : (k, v) ∈ not_none d <-> (k, Some v) ∈ d.
Proof.
  induction d as [|[k1 [v1|]] d IH]; simpl.
  - by rewrite !elem_of_nil.
  - rewrite !elem_of_cons, IH.
    split; (intros [[= -> ->]|?]; [by left|by right]).
  - rewrite elem_of_cons, IH. split; [by right|by intros [?|?]].
Qed.

(** The snapshot holds the fields that are configured and present,
    whatever the order they are configured in. *)
Lemma get_fields_elem cfg request F k v :
  get_fields cfg request = Ok F ->
  (k, v) ∈ F <->
  exists f, f ∈ _match_fields cfg /\ k = MatchFields_value f
            /\ extract f request = Ok (Some v).
Proof.
  unfold get_fields.
  destruct (extract_all request (_match_fields cfg) []) as [d|] eqn:He;
    cbn [bind]; [|done].
  intros [= <-]. rewrite not_none_elem.
  rewrite (extract_all_elem request _ [] d k (Some v) (NoDup_nil_2) He).
  rewrite elem_of_nil. split; [by intros [[[] _]|?]|by right].
Qed.

Lemma all_false_elem g : all g = Ok false -> Ok false ∈ g.
Proof.
  induction g as [|[[]|e] g IH]; simpl; intros H; try done.
  - right. by apply IH.
  - left.
Qed.

Lemma all_true_elem g x : all g = Ok true -> x ∈ g -> x = Ok true.
Proof.
  induction g as [|[[]|e] g IH]; simpl; intros H Hx; try done.
  - by apply elem_of_nil in Hx.
  - apply elem_of_cons in Hx as [->|Hx]; [done|by apply IH].
Qed.

Lemma any_true_elem g : any g = Ok true -> Ok true ∈ g.
Proof.
  induction g as [|[[]|e] g IH]; simpl; intros H; try done.
  - left.
  - right. by apply IH.
Qed.

Lemma any_false_elem g x : any g = Ok false -> x ∈ g -> x = Ok false.
Proof.
  induction g as [|[[]|e] g IH]; simpl; intros H Hx; try done.
  - by apply elem_of_nil in Hx.
  - apply elem_of_cons in Hx as [->|Hx]; [done|by apply IH].
Qed.

(** Two generators with the same elements that both run to the end give
    the same answer. *)
Lemma all_agree g g' b b' :
  (forall x, x ∈ g <-> x ∈ g') -> all g = Ok b -> all g' = Ok b' -> b = b'.
Proof.
  intros Hsame Hg Hg'. destruct b, b'; try done.
  - apply all_false_elem, Hsame in Hg'. by apply (all_true_elem _ _ Hg) in Hg'.
  - apply all_false_elem, Hsame in Hg. by apply (all_true_elem _ _ Hg') in Hg.
Qed.

Lemma any_agree g g' b b' :
  (forall x, x ∈ g <-> x ∈ g') -> any g = Ok b -> any g' = Ok b' -> b = b'.
Proof.
  intros Hsame Hg Hg'. destruct b, b'; try done.
  - apply any_true_elem, Hsame in Hg. by apply (any_false_elem _ _ Hg') in Hg.
  - apply any_true_elem, Hsame in Hg'. by apply (any_false_elem _ _ Hg) in Hg'.
Qed.

Lemma map_seq_same_elements F F' stored ignore_empty x :
  (forall p, p ∈ F <-> p ∈ F') ->
  x ∈ _map_seq F stored ignore_empty <-> x ∈ _map_seq F' stored ignore_empty.
Proof.
  intros Hsame. unfold _map_seq. rewrite !list_elem_of_fmap.
  split; intros (p & -> & Hp); exists p; split; try done; by apply Hsame.
Qed.

Lemma matcher_agree (m : MatchMethod) F F' stored b b' :
  (forall p, p ∈ F <-> p ∈ F') ->
  match m with OR => _or F | AND => _and F end stored = Ok b ->
  match m with OR => _or F' | AND => _and F' end stored = Ok b' ->
  b = b'.
Proof.
  intros Hsame. destruct m; unfold _and, _or.
  - apply all_agree. intros x. by apply map_seq_same_elements.
  - apply any_agree. intros x. by apply map_seq_same_elements.
Qed.

Lemma count_agree (m m' : list (string * value) -> result bool) datas n n' :
  (forall stored b b', m stored = Ok b -> m' stored = Ok b' -> b = b') ->
  count_last_requests m datas = Ok n ->
  count_last_requests m' datas = Ok n' ->
  n = n'.
Proof.
  intros Hm. revert n n'. induction datas as [|rs datas IH]; intros n n'; simpl.
  - congruence.
  - destruct (m (fields rs)) as [b|] eqn:Hb; simpl; [|done].
    destruct (m' (fields rs)) as [b'|] eqn:Hb'; simpl; [|done].
    destruct (count_last_requests m datas) as [k|]; simpl; [|done].
    destruct (count_last_requests m' datas) as [k'|]; simpl; [|done].
    rewrite (Hm _ _ _ Hb Hb'), (IH k k' eq_refl eq_refl). congruence.
Qed.

(** X24. When the match fields are permuted and the request ends in a
    decision under both orders, the decision is the same: the order shows
    only through a lookup that raises. *)
Theorem field_order_irrelevant_unless_crash cfg fs' _now stamp request datas :
  Permutation (_match_fields cfg) fs' ->
  let r := (_rate_limit_middleware cfg _now stamp request datas).1 in
  let r' := (_rate_limit_middleware (with_match_fields fs' cfg) _now stamp
               request datas).1 in
  admitted r \/ denied cfg r ->
  admitted r' \/ denied cfg r' ->
  r = r'.
Proof.
  intros Hperm r r' Hr Hr'. subst r r'.
  destruct (middleware_cases cfg _now stamp request datas)
    as [(e & Hc & He) | (F & n & HF & Hn & He)]; simpl in *; rewrite He in *; simpl in *.
  { destruct Hr as [Hr|Hr]; [done|]. unfold denied in Hr.
    injection Hr as ->. done. }
  destruct (middleware_cases (with_match_fields fs' cfg) _now stamp request datas)
    as [(e & Hc & He') | (F' & n' & HF' & Hn' & He')]; simpl in *;
    rewrite He' in *; simpl in *.
  { destruct Hr' as [Hr'|Hr']; [done|]. unfold denied in Hr'.
    injection Hr' as ->. done. }
  assert (n = n') as <-; [|done].
  eapply count_agree; [|exact Hn|exact Hn'].
  intros stored b b'. apply matcher_agree. intros [k v].
  rewrite (get_fields_elem _ _ _ k v HF), (get_fields_elem _ _ _ k v HF'). simpl.
  split; intros (f & Hf & Hrest); exists f; split; try done.
  - by rewrite <- Hperm.
  - by rewrite Hperm.
Qed.

(** ** Instances *)

(** Scenario: limit 0, two immediate requests of one address. *)
Example scenario_limit_0 :
  fst (serve (limiter [IP] AND 0 (seconds 60))
         [ {| at_evict := 0; at_record := 1; request_of := a_request "1.1.1.1" |};
           {| at_evict := 2; at_record := 3; request_of := a_request "1.1.1.1" |} ] [])
  = [ Ok tt; Raise (HTTPException 429 (Some (MStr "Too Many Requests"))) ].
Proof. vm_compute. reflexivity. Qed.

(** Scenario: limit 2, four requests of one address within a second. *)
Example scenario_limit_2 :
  fst (serve (limiter [IP] AND 2 (seconds 10))
         (map (fun t => {| at_evict := t; at_record := t + 1;
                           request_of := a_request "1.1.1.1" |})
              [0; 10; 20; 30]) [])
  = [ Ok tt; Ok tt; Ok tt; Raise (HTTPException 429 (Some (MStr "Too Many Requests"))) ].
Proof. vm_compute. reflexivity. Qed.

(** Scenario: limit 1, window 5s, a second request after 6s. *)
Example scenario_expiry :
  serve (limiter [IP] AND 1 (seconds 5))
    [ {| at_evict := 0; at_record := 0; request_of := a_request "1.1.1.1" |};
      {| at_evict := seconds 6; at_record := seconds 6;
         request_of := a_request "1.1.1.1" |} ] []
  = ([ Ok tt; Ok tt ],
     [ {| fields := [("ip"%string, VStr "1.1.1.1")]; timestamp := seconds 6 |} ]).
Proof. vm_compute. reflexivity. Qed.

(** Scenario: stored address A and token T, incoming address B and token
    T. The OR matcher counts the stored record, the AND matcher does not. *)
Example scenario_shared_token :
  _or [("ip"%string, VStr "B"); ("auth"%string, VStr "T")]
      [("ip"%string, VStr "A"); ("auth"%string, VStr "T")] = Ok true
  /\ _and [("ip"%string, VStr "B"); ("auth"%string, VStr "T")]
          [("ip"%string, VStr "A"); ("auth"%string, VStr "T")] = Ok false.
Proof. split; reflexivity. Qed.

Lemma remove_olds_evicts_strictly_older_witness :
  non_decreasing [stored_at 0 "a"; stored_at 5 "b"; stored_at 10 "c"]
  /\ _remove_olds 15 10 [stored_at 0 "a"; stored_at 5 "b"; stored_at 10 "c"]
     = [stored_at 5 "b"; stored_at 10 "c"].
Proof.
  split; [sorted_by_computation|].
  destruct (remove_olds_evicts_strictly_older 15 10
              [stored_at 0 "a"; stored_at 5 "b"; stored_at 10 "c"])
    as [-> _]; [sorted_by_computation|reflexivity].
Defined.

Lemma middleware_appends_one_record_witness :
  exists _fields,
    get_fields (limiter [IP] AND 0 (seconds 60)) (a_request "1.1.1.1") = Ok _fields
    /\ [stored_at 1 "1.1.1.1"; stored_at 3 "1.1.1.1"]
       = _remove_olds 2 (_window_time (limiter [IP] AND 0 (seconds 60)))
           [stored_at 1 "1.1.1.1"]
         ++ [ {| fields := _fields; timestamp := 3 |} ].
Proof.
  apply (middleware_appends_one_record (limiter [IP] AND 0 (seconds 60)) 2 3
           (a_request "1.1.1.1") [stored_at 1 "1.1.1.1"]
           (Raise (HTTPException 429 (Some (MStr "Too Many Requests"))))).
  - vm_compute. reflexivity.
  - right. reflexivity.
Defined.

Lemma serve_keeps_timestamp_order_witness :
  Sorted Z.le (at_record <$> [at_time 1 (a_request "1.1.1.1");
                              at_time 3 (a_request "2.2.2.2")])
  /\ non_decreasing
       (serve (limiter [IP] AND 0 (seconds 60))
          (take 2 [at_time 1 (a_request "1.1.1.1"); at_time 3 (a_request "2.2.2.2")])
          []).2.
Proof.
  split; [sorted_by_computation|].
  apply (serve_keeps_timestamp_order (limiter [IP] AND 0 (seconds 60))
           [at_time 1 (a_request "1.1.1.1"); at_time 3 (a_request "2.2.2.2")]).
  sorted_by_computation.
Defined.

Lemma verify_fields_requires_all_witness :
  (exists msg,
     verify_fields phrase_excerpt enabled_without_limit = Raise (AssertionError msg)
     /\ forall db,
          ServiceConfig_validate phrase_excerpt
            {| rate_limit := enabled_without_limit; database := db |}
          = Raise (AssertionError msg))
  /\ verify_fields phrase_excerpt RateLimitConfig_default = Ok RateLimitConfig_default.
Proof.
  split.
  - apply (verify_fields_requires_all phrase_excerpt enabled_without_limit).
    + reflexivity.
    + right. left. reflexivity.
  - apply (verify_fields_requires_all phrase_excerpt RateLimitConfig_default).
    reflexivity.
Defined.

Lemma and_matches_incoming_within_stored_witness :
  _and [("ip"%string, VStr "1.1.1.1")]
       [("ip"%string, VStr "2.2.2.2"); ("useragent"%string, VStr "curl")]
  = Ok false.
Proof.
  destruct (and_matches_incoming_within_stored
              [("ip"%string, VStr "2.2.2.2"); ("useragent"%string, VStr "curl")]
              [("ip"%string, VStr "1.1.1.1")]) as (_ & Hwithin & _).
  rewrite Hwithin; [reflexivity|].
  intros k b [[= -> ->]|Hin]%elem_of_cons; [reflexivity|].
  by apply elem_of_nil in Hin.
Defined.

Lemma empty_snapshot_decision_witness :
  get_fields (limiter [USERAGENT] OR 0 (seconds 60)) (a_request "1.1.1.1") = Ok []
  /\ admitted (_rate_limit_middleware (limiter [USERAGENT] OR 0 (seconds 60)) 5 5
                 (a_request "1.1.1.1") [stored_at 1 "1.1.1.1"]).1.
Proof.
  split; [reflexivity|].
  destruct (empty_snapshot_decision (limiter [USERAGENT] OR 0 (seconds 60)) 5 5
              (a_request "1.1.1.1") [stored_at 1 "1.1.1.1"])
    as (_ & _ & _ & Hor); [reflexivity|].
  apply Hor; [reflexivity|]. simpl. lia.
Defined.

(** C2 as it is worded fails: the stored snapshot holds a key the incoming
    one lacks (a first request with a User-Agent header, a second without),
    and the matcher, which only walks the incoming keys, returns true. *)
Lemma and_matcher_counterexample :
  _and [("ip"%string, VStr "1.1.1.1")]
       [("ip"%string, VStr "1.1.1.1"); ("useragent"%string, VStr "curl")]
  = Ok true
  /\ spec_and [("ip"%string, VStr "1.1.1.1"); ("useragent"%string, VStr "curl")]
              [("ip"%string, VStr "1.1.1.1")]
     = false.
Proof. split; reflexivity. Qed.

(** The other way round the lookup [seq_2[key]] raises: the incoming
    snapshot holds a key the stored one lacks. *)
Example and_matcher_key_error :
  _and [("ip"%string, VStr "1.1.1.1"); ("useragent"%string, VStr "curl")]
       [("ip"%string, VStr "1.1.1.1")]
  = Raise (KeyError "useragent").
Proof. reflexivity. Qed.

(** C10 as it is worded fails: with a negative limit, which
    [verify_fields] accepts, a request with an empty snapshot is denied
    under OR although nothing is counted against it. *)
Lemma empty_snapshot_or_counterexample :
  (exists c,
     verify_fields phrase_excerpt enabled_negative_limit = Ok c
     /\ settings_of c = Some (limiter [USERAGENT] OR (-1) (seconds 60)))
  /\ get_fields (limiter [USERAGENT] OR (-1) (seconds 60)) (a_request "1.1.1.1") = Ok []
  /\ (_rate_limit_middleware (limiter [USERAGENT] OR (-1) (seconds 60)) 0 0
        (a_request "1.1.1.1") []).1
     = Raise (HTTPException 429 (Some (MStr "Too Many Requests")))
  /\ ~ admitted (_rate_limit_middleware (limiter [USERAGENT] OR (-1) (seconds 60)) 0 0
                   (a_request "1.1.1.1") []).1.
Proof.
  split; [by eexists|]. repeat split; try reflexivity. intros H. discriminate H.
Qed.

(** C3 at a failing input: the stored and the incoming snapshot hold
    different addresses, no key agrees, and the OR matcher returns true
    (the incoming value is not a key of the stored snapshot, which the
    generator takes for a match); so does an empty incoming value. *)
Theorem or_matches_differing_values :
  _or [("ip"%string, VStr "2.2.2.2")] [("ip"%string, VStr "1.1.1.1")] = Ok true
  /\ spec_or [("ip"%string, VStr "1.1.1.1")] [("ip"%string, VStr "2.2.2.2")] = false
  /\ _or [("useragent"%string, VStr EmptyString)] [("useragent"%string, VStr "curl")]
     = Ok true.
Proof. repeat split; reflexivity. Qed.

(** C1 at a failing input: limit 1, the cookie mapping as the only match
    field, the OR method, two requests with the same cookie. The second one
    should be admitted; the matcher raises [TypeError] on the membership
    test of the cookie mapping, and the request is neither admitted nor
    recorded. *)
Theorem same_cookie_under_or_raises :
  serve (limiter [COOKIE] OR 1 (seconds 60))
    [ at_time 0 (with_cookie "1.1.1.1" "session" "abc");
      at_time 1 (with_cookie "1.1.1.1" "session" "abc") ] []
  = ([ Ok tt; Raise TypeError ],
     [ {| fields := [("cookies"%string, VDict {[ "session"%string := "abc"%string ]})];
          timestamp := 0 |} ]).
Proof. vm_compute. reflexivity. Qed.

(** C9 at a failing input: a request without a User-Agent header is
    followed by one from another address with the header. With the match
    fields in the order address, user agent the second request is admitted;
    in the order user agent, address the lookup of the user agent in the
    stored snapshot raises [KeyError]. *)
Theorem field_order_changes_outcome :
  Permutation [IP; USERAGENT] [USERAGENT; IP]
  /\ (serve (limiter [IP; USERAGENT] AND 5 (seconds 60))
        [ at_time 0 (a_request "1.1.1.1");
          at_time 1 (with_user_agent "2.2.2.2" "curl") ] []).1
     = [ Ok tt; Ok tt ]
  /\ (serve (limiter [USERAGENT; IP] AND 5 (seconds 60))
        [ at_time 0 (a_request "1.1.1.1");
          at_time 1 (with_user_agent "2.2.2.2" "curl") ] []).1
     = [ Ok tt; Raise (KeyError "useragent") ].
Proof. split; [apply perm_swap|]. split; vm_compute; reflexivity. Qed.

(** C5 at a failing input: the user agent as the only match field, the AND
    method, a request without a User-Agent header followed by one with the
    header. The match method is valid, so the second call should append
    its record; the lookup of the user agent in the stored snapshot raises
    [KeyError] before the append, and the window keeps the record of the
    first request alone. The same happens on an empty window when the
    address is a match field and the request carries no client address. *)
Theorem valid_method_call_appends_nothing :
  serve (limiter [USERAGENT] AND 5 (seconds 60))
    [ at_time 0 (a_request "1.1.1.1");
      at_time 1 (with_user_agent "1.1.1.1" "curl") ] []
  = ([ Ok tt; Raise (KeyError "useragent") ],
     [ {| fields := []; timestamp := 0 |} ])
  /\ _rate_limit_middleware (limiter [USERAGENT] AND 5 (seconds 60)) 1 1
       (with_user_agent "1.1.1.1" "curl") [ {| fields := []; timestamp := 0 |} ]
     = (Raise (KeyError "useragent"),
        _remove_olds 1 (seconds 60) [ {| fields := []; timestamp := 0 |} ])
  /\ _rate_limit_middleware (limiter [IP] OR 5 (seconds 60)) 0 0
       {| client := None; user_agent := None; cookies := ∅; authorization := None |}
       []
     = (Raise AttributeError, []).
Proof. repeat split; vm_compute; reflexivity. Qed.

(** Three requests of one address within a minute, limit 1: the second is
    admitted, the third is denied, under either method. *)
Example same_key_sequence_and_three_calls :
  exists r,
    (serve (limiter [IP] AND 1 (seconds 60)) three_calls []).1 !! 2%nat = Some r
    /\ (admitted r <-> 3 <= 1 + 1)
    /\ (denied (limiter [IP] AND 1 (seconds 60)) r <-> 3 > 1 + 1).
Proof.
  apply (same_key_sequence_and (limiter [IP] AND 1 (seconds 60))
           [("ip"%string, VStr "1.1.1.1")] three_calls).
  - reflexivity.
  - unfold three_calls. each_call; reflexivity.
  - unfold three_calls. each_call; vm_compute; discriminate.
  - simpl. lia.
Defined.

Example same_key_sequence_or_three_calls :
  exists r,
    (serve (limiter [IP] OR 1 (seconds 60)) three_calls []).1 !! 1%nat = Some r
    /\ (admitted r <-> 2 <= 1 + 1)
    /\ (denied (limiter [IP] OR 1 (seconds 60)) r <-> 2 > 1 + 1).
Proof.
  apply (same_key_sequence_or (limiter [IP] OR 1 (seconds 60))
           "ip"%string (VStr "1.1.1.1") [] three_calls).
  - reflexivity.
  - intros d Hd. discriminate Hd.
  - unfold three_calls. each_call; reflexivity.
  - unfold three_calls. each_call; vm_compute; discriminate.
  - simpl. lia.
Defined.

(** * Further properties *)

(** ** Eviction on any window *)

(** The loop stops at the last expired record. *)
Lemma remove_olds_from_last_expired _now wt datas i rs n :
  datas !! i = Some rs -> expired _now wt rs ->
  (forall j r, (i < j)%nat -> datas !! j = Some r -> ~ expired _now wt r) ->
  (i < n)%nat -> (n <= length datas)%nat ->
  _remove_olds_from _now wt datas n = drop (S i) datas.
Proof.
  intros Hi Hex Hlater. induction n as [|index IH]; intros Hlt Hn; [lia|].
  simpl. destruct (decide (index = i)) as [->|Hne].
  - rewrite Hi. unfold expired in Hex.
    by destruct (Z.gtb_spec (_now - timestamp rs) wt); [|lia].
  - destruct (lookup_lt_is_Some_2 datas index) as [r Hr]; [lia|]. rewrite Hr.
    destruct (Z.gtb_spec (_now - timestamp r) wt) as [Hr'|_]; [|apply IH; lia].
    exfalso. apply (Hlater index r); [lia|done|]. unfold expired. lia.
Qed.

Lemma remove_olds_at_last_expired _now wt datas i rs :
  datas !! i = Some rs -> expired _now wt rs ->
  (forall j r, (i < j)%nat -> datas !! j = Some r -> ~ expired _now wt r) ->
  _remove_olds _now wt datas = drop (S i) datas.
Proof.
  intros Hi Hex Hlater. unfold _remove_olds.
  apply (remove_olds_from_last_expired _ _ _ i rs); try done.
  by apply lookup_lt_Some in Hi.
Qed.

(** A window holds no expired record, or it has a last one. *)
Lemma last_expired_cases _now wt (datas : list RequestState) :
  (forall rs, rs ∈ datas -> ~ expired _now wt rs)
  \/ (exists i rs, datas !! i = Some rs /\ expired _now wt rs
        /\ forall j r, (i < j)%nat -> datas !! j = Some r -> ~ expired _now wt r).
Proof.
  induction datas as [|x l IH] using rev_ind.
  - left. intros rs Hin. by apply elem_of_nil in Hin.
  - destruct (decide (expired _now wt x)) as [Hx|Hx].
    + right. exists (length l), x. split; [by apply list_lookup_middle|].
      split; [done|]. intros j r Hj Hr. apply lookup_lt_Some in Hr.
      rewrite length_app in Hr. simpl in Hr. lia.
    + destruct IH as [Hnone|(i & rs & Hi & Hex & Hlater)].
      * left. intros rs [Hin|Hin%list_elem_of_singleton]%elem_of_app;
          [by apply Hnone|by subst].
      * right. exists i, rs. split; [by apply lookup_app_l_Some|].
        split; [done|]. intros j r Hj Hr.
        apply lookup_app_Some in Hr as [Hr|[_ Hr]]; [by eapply Hlater|].
        apply list_lookup_singleton_Some in Hr as [_ <-]. done.
Qed.

(** X1. Whatever the order of the timestamps, [_remove_olds] returns the
    window unchanged when no record is expired, and otherwise the records
    that follow the last expired one; in both cases no record that is left
    is expired. *)
Theorem remove_olds_leaves_no_expired _now wt (datas : list RequestState) :
  (forall rs, rs ∈ _remove_olds _now wt datas -> ~ expired _now wt rs)
  /\ ((_remove_olds _now wt datas = datas
       /\ forall rs, rs ∈ datas -> ~ expired _now wt rs)
      \/ (exists i rs, datas !! i = Some rs /\ expired _now wt rs
            /\ _remove_olds _now wt datas = drop (S i) datas)).
Proof.
  destruct (last_expired_cases _now wt datas)
    as [Hnone|(i & rs & Hi & Hex & Hlater)].
  - assert (_remove_olds _now wt datas = datas) as Heq
      by (by apply remove_olds_from_keep).
    rewrite Heq. split; [done|]. by left.
  - rewrite (remove_olds_at_last_expired _ _ _ i rs) by done. split.
    + intros r [j Hj]%list_elem_of_lookup_1. rewrite lookup_drop in Hj.
      apply (Hlater (S i + j)%nat); [lia|done].
    + right. by exists i, rs.
Qed.

(** X2. Evicting at a time and again at the same or a later time, with the
    same window duration, leaves what one eviction at the later time
    leaves; in particular eviction is idempotent. *)
Theorem remove_olds_twice _now1 _now2 wt (datas : list RequestState) :
  _now1 <= _now2 ->
  _remove_olds _now2 wt (_remove_olds _now1 wt datas) = _remove_olds _now2 wt datas.
Proof.
  intros Hle.
  assert (forall r, expired _now1 wt r -> expired _now2 wt r) as Hmono.
  { intros r. unfold expired. lia. }
  destruct (last_expired_cases _now2 wt datas)
    as [Hnone|(i & rs & Hi & Hex & Hlater)].
  - assert (_remove_olds _now1 wt datas = datas) as ->.
    { apply remove_olds_from_keep. intros r Hr He. by apply (Hnone r), Hmono. }
    done.
  - rewrite (remove_olds_at_last_expired _now2 _ datas i rs) by done.
    destruct (last_expired_cases _now1 wt datas)
      as [Hnone1|(i1 & rs1 & Hi1 & Hex1 & Hlater1)].
    + assert (_remove_olds _now1 wt datas = datas) as ->
        by (by apply remove_olds_from_keep).
      by apply (remove_olds_at_last_expired _ _ _ i rs).
    + rewrite (remove_olds_at_last_expired _now1 _ datas i1 rs1) by done.
      assert (i1 <= i)%nat as Hi1i.
      { destruct (decide (i1 <= i)%nat); [done|]. exfalso.
        apply (Hlater i1 rs1); [lia|done|by apply Hmono]. }
      destruct (decide (i1 = i)) as [->|Hne].
      * apply remove_olds_from_keep.
        intros r [j Hj]%list_elem_of_lookup_1. rewrite lookup_drop in Hj.
        apply (Hlater (S i + j)%nat); [lia|done].
      * rewrite (remove_olds_at_last_expired _now2 _ _ (i - S i1) rs).
        -- rewrite drop_drop. f_equal. lia.
        -- rewrite lookup_drop. rewrite <- Hi. f_equal. lia.
        -- done.
        -- intros j r Hj Hr. rewrite lookup_drop in Hr.
           apply (Hlater (S i1 + j)%nat); [lia|done].
Qed.

Lemma remove_olds_twice_witness :
  _remove_olds 20 10 (_remove_olds 15 10
                        [stored_at 0 "a"; stored_at 5 "b"; stored_at 12 "c"])
  = [stored_at 12 "c"].
Proof.
  rewrite (remove_olds_twice 15 20 10); [reflexivity|lia].
Defined.

(** ** The snapshot of a request *)

Lemma field_mapping_total (f : MatchFields) :
  exists g, getitem _field_mapping (MatchFields_value f) = Ok g.
Proof. destruct f; by eexists. Qed.

Lemma extract_all_raise_iff request fs acc e :
  extract_all request fs acc = Raise e <->
  IP ∈ fs /\ client request = None /\ e = AttributeError.
Proof.
  revert acc. induction fs as [|f fs IH]; intros acc; cbn [extract_all].
  - split; [done|]. intros [Hin _]. by apply elem_of_nil in Hin.
  - rewrite elem_of_cons. destruct f; simpl; rewrite ?IH;
      try (split; [intros (? & ? & ?); by auto|intros ([?|?] & ? & ?); by auto]).
    destruct (client request) as [host|] eqn:Hc; simpl.
    + rewrite IH. split; [by intros (? & ? & ?)|by intros (? & ? & ?)].
    + split; [intros [= <-]; by auto|by intros (_ & _ & ->)].
Qed.

(** X3. [get_fields] fails exactly when the client address is among the
    match fields and the request carries no client; the exception is then
    [AttributeError]. Absent headers never make it fail. *)
Theorem get_fields_raises_iff cfg request e :
  get_fields cfg request = Raise e <->
  IP ∈ _match_fields cfg /\ client request = None /\ e = AttributeError.
Proof.
  unfold get_fields. rewrite <- (extract_all_raise_iff request _ [] e).
  destruct (extract_all request (_match_fields cfg) []); cbn;
    split; intros H; try discriminate H; by injection H as ->.
Qed.

Lemma extract_eq f request :
  extract f request
  = match f with
    | IP => match client request with
            | Some host => Ok (Some (VStr host))
            | None => Raise AttributeError
            end
    | USERAGENT => Ok (VStr <$> user_agent request)
    | COOKIE => Ok (Some (VDict (cookies request)))
    | AUTH => Ok (VStr <$> authorization request)
    end.
Proof. by destruct f. Qed.

(** X4. The snapshot [get_fields] builds has every key once, also when a
    field is configured twice, and holds exactly the configured fields
    whose extractor yields a value: the client host, the cookie mapping
    (even when empty), and the two headers when they are present. *)
Theorem get_fields_snapshot cfg request F :
  get_fields cfg request = Ok F ->
  NoDup F.*1
  /\ (forall k v, (k, v) ∈ F <->
        exists f, f ∈ _match_fields cfg /\ k = MatchFields_value f
                  /\ extract f request = Ok (Some v))
  /\ (forall v, (MatchFields_value IP, v) ∈ F <->
        IP ∈ _match_fields cfg /\ exists host, client request = Some host /\ v = VStr host)
  /\ (forall v, (MatchFields_value USERAGENT, v) ∈ F <->
        USERAGENT ∈ _match_fields cfg
        /\ exists ua, user_agent request = Some ua /\ v = VStr ua)
  /\ (forall v, (MatchFields_value COOKIE, v) ∈ F <->
        COOKIE ∈ _match_fields cfg /\ v = VDict (cookies request))
  /\ (forall v, (MatchFields_value AUTH, v) ∈ F <->
        AUTH ∈ _match_fields cfg
        /\ exists a, authorization request = Some a /\ v = VStr a).
Proof.
  intros HF. split; [by eapply get_fields_NoDup|].
  assert (forall f0 v, (MatchFields_value f0, v) ∈ F <->
            f0 ∈ _match_fields cfg /\ extract f0 request = Ok (Some v)) as Hone.
  { intros f0 v. rewrite (get_fields_elem cfg request F _ v HF). split.
    - intros (f & Hf & Heq & Hv). by rewrite (inj MatchFields_value _ _ Heq).
    - intros [Hf Hv]. by exists f0. }
  split; [intros k v; by apply get_fields_elem|].
  split; [|split; [|split]]; intros v; rewrite Hone, extract_eq.
  - split.
    + intros [Hin Hv]. split; [done|]. destruct (client request); [|done].
      injection Hv as <-. by eexists.
    + intros [Hin (host & -> & ->)]. done.
  - split.
    + intros [Hin Hv]. split; [done|]. destruct (user_agent request); [|done].
      injection Hv as <-. by eexists.
    + intros [Hin (ua & -> & ->)]. done.
  - split.
    + intros [Hin Hv]. split; [done|]. congruence.
    + intros [Hin ->]. done.
  - split.
    + intros [Hin Hv]. split; [done|]. destruct (authorization request); [|done].
      injection Hv as <-. by eexists.
    + intros [Hin (a & -> & ->)]. done.
Qed.

Lemma get_fields_snapshot_witness :
  NoDup [("ip"%string, VStr "1.1.1.1"); ("useragent"%string, VStr "curl")].*1
  /\ forall v, (MatchFields_value AUTH, v)
                 ∈ [("ip"%string, VStr "1.1.1.1"); ("useragent"%string, VStr "curl")]
               <-> AUTH ∈ [IP; USERAGENT; IP; AUTH]
                   /\ exists a, authorization (with_user_agent "1.1.1.1" "curl") = Some a
                                /\ v = VStr a.
Proof.
  destruct (get_fields_snapshot (limiter [IP; USERAGENT; IP; AUTH] AND 1 (seconds 60))
              (with_user_agent "1.1.1.1" "curl")
              [("ip"%string, VStr "1.1.1.1"); ("useragent"%string, VStr "curl")])
    as (Hnodup & _ & _ & _ & _ & Hauth); [reflexivity|].
  split; [exact Hnodup|exact Hauth].
Defined.

(** ** The window restarts, and aborted calls *)

(** X5. When the window is empty, or its newest record has expired at the
    time of the eviction, no record is left to count: whatever the match
    method and the order of the older records, the matcher is not run.
    If the snapshot of the request can be built, the request is admitted
    iff the limit is not negative, and the window becomes the one new
    record; if building it raises, the call raises that exception and the
    window is left empty. *)
Theorem idle_window_restarts cfg _now stamp request datas :
  (datas = [] \/ exists rs, last datas = Some rs /\ expired _now (_window_time cfg) rs) ->
  _rate_limit_middleware cfg _now stamp request datas
  = match get_fields cfg request with
    | Ok F => (outcome_for cfg 0, [ {| fields := F; timestamp := stamp |} ])
    | Raise e => (Raise e, [])
    end
  /\ (admitted (outcome_for cfg 0) <-> 0 <= _limit cfg).
Proof.
  intros Hidle.
  assert (_remove_olds _now (_window_time cfg) datas = []) as Hev.
  { destruct Hidle as [->|(rs & Hlast & Hex)]; [done|].
    rewrite last_lookup in Hlast.
    rewrite (remove_olds_at_last_expired _ _ _ (pred (length datas)) rs Hlast Hex).
    - apply drop_ge. lia.
    - intros j r Hj Hr. apply lookup_lt_Some in Hr. lia. }
  split.
  - unfold _rate_limit_middleware. rewrite Hev.
    destruct (get_fields cfg request) as [F|e]; [|done]. simpl.
    unfold outcome_for. by destruct (0 >? _limit cfg).
  - unfold outcome_for, admitted.
    destruct (Z.gtb_spec 0 (_limit cfg)); split; intros; try done; lia.
Qed.

Lemma idle_window_restarts_witness :
  _rate_limit_middleware (limiter [COOKIE] OR 0 (seconds 5)) (seconds 9) (seconds 9)
    (with_cookie "1.1.1.1" "session" "abc")
    [ {| fields := [("cookies"%string, VDict {[ "session"%string := "abc"%string ]})];
         timestamp := seconds 1 |} ]
  = (Ok tt,
     [ {| fields := [("cookies"%string, VDict {[ "session"%string := "abc"%string ]})];
          timestamp := seconds 9 |} ]).
Proof.
  destruct (idle_window_restarts (limiter [COOKIE] OR 0 (seconds 5)) (seconds 9)
              (seconds 9) (with_cookie "1.1.1.1" "session" "abc")
              [ {| fields := [("cookies"%string,
                                VDict {[ "session"%string := "abc"%string ]})];
                   timestamp := seconds 1 |} ])
    as [-> _]; [|reflexivity].
  right. eexists. split; [reflexivity|]. unfold expired. vm_compute. reflexivity.
Defined.

(** X6. A call of the whole middleware that ends in an exception ended in
    one of two ways. Either it was aborted before the append, while the
    client address was read or while a record that survived the eviction
    was matched: the window is then the evicted window, with no record
    for the request. Or the record of the request was appended: the
    exception is then the configured [HTTPException] of a denied request,
    or what [call_next] raised for a request that was not denied. *)
Theorem raising_call_window {R} cfg _now stamp request (call_next : result R)
  datas e :
  let evicted := _remove_olds _now (_window_time cfg) datas in
  let out := with_call_next cfg _now stamp request call_next datas in
  out.1 = Raise e ->
  (out.2 = evicted
   /\ (get_fields cfg request = Raise e
       \/ exists F rs,
            get_fields cfg request = Ok F
            /\ rs ∈ evicted
            /\ matcher_of cfg F (fields rs) = Raise e))
  \/ (exists F n,
        get_fields cfg request = Ok F
        /\ count_last_requests (matcher_of cfg F) evicted = Ok n
        /\ out.2 = evicted ++ [ {| fields := F; timestamp := stamp |} ]
        /\ (_limit cfg < n
               /\ e = HTTPException (_status_code cfg) (_message cfg)
            \/ n <= _limit cfg /\ call_next = Raise e)).
Proof.
  intros evicted out. subst out.
  unfold with_call_next, _rate_limit_middleware. fold evicted.
  destruct (get_fields cfg request) as [F|e'] eqn:HF; cbn [fst snd].
  - change (match _match_method cfg with OR => _or F | AND => _and F end)
      with (matcher_of cfg F).
    destruct (count_last_requests _ _) as [n|e'] eqn:Hc; cbn [fst snd].
    + destruct (Z.gtb_spec n (_limit cfg)) as [Hgt|Hle]; cbn [fst snd bind].
      * intros [= <-]. right. exists F, n. repeat (split; [done|]). left. by split.
      * intros Hnext. right. exists F, n. repeat (split; [done|]). right.
        by split.
    + cbn [bind]. intros [= ->]. left. split; [done|]. right.
      apply count_last_requests_raise in Hc as (rs & Hin & Hr). by exists F, rs.
  - cbn [bind]. intros [= ->]. left. split; [done|]. by left.
Qed.

Lemma raising_call_window_witness :
  ((with_call_next (limiter [IP] AND 1 (seconds 60)) 5 5 (a_request "1.1.1.1")
      (@Raise unit TypeError) [stored_at 1 "1.1.1.1"]).2
   = _remove_olds 5 (seconds 60) [stored_at 1 "1.1.1.1"]
   /\ (get_fields (limiter [IP] AND 1 (seconds 60)) (a_request "1.1.1.1")
       = Raise TypeError
       \/ exists F rs,
            get_fields (limiter [IP] AND 1 (seconds 60)) (a_request "1.1.1.1") = Ok F
            /\ rs ∈ _remove_olds 5 (seconds 60) [stored_at 1 "1.1.1.1"]
            /\ matcher_of (limiter [IP] AND 1 (seconds 60)) F (fields rs)
               = Raise TypeError))
  \/ (exists F n,
        get_fields (limiter [IP] AND 1 (seconds 60)) (a_request "1.1.1.1") = Ok F
        /\ count_last_requests (matcher_of (limiter [IP] AND 1 (seconds 60)) F)
             (_remove_olds 5 (seconds 60) [stored_at 1 "1.1.1.1"]) = Ok n
        /\ (with_call_next (limiter [IP] AND 1 (seconds 60)) 5 5 (a_request "1.1.1.1")
              (@Raise unit TypeError) [stored_at 1 "1.1.1.1"]).2
           = _remove_olds 5 (seconds 60) [stored_at 1 "1.1.1.1"]
               ++ [ {| fields := F; timestamp := 5 |} ]
        /\ (_limit (limiter [IP] AND 1 (seconds 60)) < n
               /\ TypeError = HTTPException 429 (Some (MStr "Too Many Requests"))
            \/ n <= _limit (limiter [IP] AND 1 (seconds 60))
               /\ @Raise unit TypeError = Raise TypeError)).
Proof.
  apply (raising_call_window (limiter [IP] AND 1 (seconds 60)) 5 5
           (a_request "1.1.1.1") (@Raise unit TypeError)
           [stored_at 1 "1.1.1.1"] TypeError).
  reflexivity.
Defined.

(** ** Requests that match no earlier request *)

Lemma serve_unrelated cfg calls datas :
  0 <= _limit cfg ->
  (forall c, c ∈ calls -> exists F, get_fields cfg (request_of c) = Ok F) ->
  (forall c F rs, c ∈ calls -> get_fields cfg (request_of c) = Ok F ->
     rs ∈ datas -> matcher_of cfg F (fields rs) = Ok false) ->
  (forall i j c c' F F', (i < j)%nat -> calls !! i = Some c -> calls !! j = Some c' ->
     get_fields cfg (request_of c) = Ok F ->
     get_fields cfg (request_of c') = Ok F' ->
     matcher_of cfg F' F = Ok false) ->
  forall r, r ∈ (serve cfg calls datas).1 -> r = Ok tt.
Proof.
  intros Hlim. revert datas.
  induction calls as [|c calls IH]; intros datas Hok Hdatas Hpair r; simpl.
  - intros Hin. by apply elem_of_nil in Hin.
  - destruct (Hok c) as [F HF]; [left|].
    assert (exists k, _remove_olds (at_evict c) (_window_time cfg) datas = drop k datas)
      as [k Hk] by apply remove_olds_from_drop.
    assert (_rate_limit_middleware cfg (at_evict c) (at_record c) (request_of c) datas
            = (Ok tt, drop k datas ++ [ {| fields := F; timestamp := at_record c |} ]))
      as ->.
    { unfold _rate_limit_middleware. rewrite Hk, HF.
      change (match _match_method cfg with OR => _or F | AND => _and F end)
        with (matcher_of cfg F).
      rewrite count_all_false.
      - by destruct (Z.gtb_spec 0 (_limit cfg)); [lia|].
      - intros rs Hrs. apply (Hdatas c F rs); [left|done|].
        by eapply subseteq_drop. }
    specialize (IH (drop k datas ++ [ {| fields := F; timestamp := at_record c |} ])).
    destruct (serve cfg calls _) as [rs datas2]. simpl in *.
    intros [->|Hin]%elem_of_cons; [done|]. apply IH; try done.
    + intros c' Hc'. apply Hok. by right.
    + intros c' F' rs' Hc' HF' [Hin'|Hin'%list_elem_of_singleton]%elem_of_app.
      * apply (Hdatas c' F' rs'); [by right|done|by eapply subseteq_drop].
      * subst rs'. simpl.
        apply list_elem_of_lookup_1 in Hc' as [j Hj].
        by apply (Hpair O (S j) c c' F F'); [lia|..].
    + intros i j c1 c2 F1 F2 Hij H1 H2. apply (Hpair (S i) (S j)); [lia|done..].
Qed.

(** X7. When no request of a sequence matches an earlier one (the matcher
    answers false on each such pair), the limit is not negative and every
    request carries what the extractors read, every request is admitted,
    whatever the clock readings and the window duration. *)
Theorem unrelated_requests_admitted cfg (calls : list call) :
  0 <= _limit cfg ->
  (forall c, c ∈ calls -> exists F, get_fields cfg (request_of c) = Ok F) ->
  (forall i j c c' F F', (i < j)%nat -> calls !! i = Some c -> calls !! j = Some c' ->
     get_fields cfg (request_of c) = Ok F ->
     get_fields cfg (request_of c') = Ok F' ->
     matcher_of cfg F' F = Ok false) ->
  forall r, r ∈ (serve cfg calls []).1 -> admitted r.
Proof.
  intros Hlim Hok Hpair r Hr. apply (serve_unrelated cfg calls []); try done.
  intros c F rs _ _ Hin. by apply elem_of_nil in Hin.
Qed.

Lemma unrelated_requests_admitted_witness :
  admitted (Ok tt)
  /\ (serve (limiter [IP] AND 0 (seconds 60))
        [at_time 0 (a_request "1.1.1.1"); at_time 1 (a_request "2.2.2.2")] []).1
     = [Ok tt; Ok tt].
Proof.
  split; [|reflexivity].
  apply (unrelated_requests_admitted (limiter [IP] AND 0 (seconds 60))
           [at_time 0 (a_request "1.1.1.1"); at_time 1 (a_request "2.2.2.2")]).
  - simpl. lia.
  - each_call; by eexists.
  - intros [|[|i]] [|[|j]] c c' F F' Hij Hi Hj HF HF'; simpl in *;
      try lia; try discriminate.
    injection Hi as <-. injection Hj as <-.
    injection HF as <-. injection HF' as <-. reflexivity.
  - left.
Defined.

(** ** More on [RateLimitConfig.verify_fields] *)

(** X8. [verify_fields] accepts a configuration exactly when limiting is
    disabled, or the window duration, the limit, the match fields and the
    match method are all given and a message is given or the status code
    has a standard phrase. With the four values given, no message and a
    status code without phrase, it raises [ValueError]. *)
Theorem verify_fields_accepts_iff (phrase : Z -> option string)
  (self : RateLimitConfig) :
  ((exists self', verify_fields phrase self = Ok self') <->
   enable self = false
   \/ (is_Some (window_time self) /\ is_Some (limit self)
       /\ is_Some (match_fields self) /\ is_Some (match_method self)
       /\ (is_Some (message self) \/ is_Some (phrase (status_code self)))))
  /\ (enable self = true ->
      is_Some (window_time self) -> is_Some (limit self) ->
      is_Some (match_fields self) -> is_Some (match_method self) ->
      message self = None -> phrase (status_code self) = None ->
      verify_fields phrase self = Raise ValueError).
Proof.
  destruct self as [en wt lim mf mm sc msg]; simpl. split.
  - unfold verify_fields; simpl. destruct en; simpl.
    + split.
      * intros [self' Hok]. right.
        destruct wt, lim, mf, mm; simpl in Hok; try done.
        repeat (split; [by eexists|]).
        destruct msg; [left; by eexists|]. simpl in Hok.
        destruct (phrase sc); [right; by eexists|done].
      * intros [?|([? ->] & [? ->] & [? ->] & [? ->] & Hmsg)]; [done|]. simpl.
        destruct Hmsg as [[? ->]|[? Hp]]; simpl; [by eexists|].
        destruct msg; simpl; [by eexists|]. rewrite Hp. by eexists.
    + split; [by left|by eexists].
  - intros -> [? ->] [? ->] [? ->] [? ->] -> Hp.
    unfold verify_fields; simpl. by rewrite Hp.
Qed.

(** X9. Validating again a configuration that [verify_fields] returned
    gives it back unchanged: the match fields are already a list and the
    message is already filled in. *)
Theorem verify_fields_idempotent (phrase : Z -> option string)
  (self self' : RateLimitConfig) :
  verify_fields phrase self = Ok self' ->
  verify_fields phrase self' = Ok self'.
Proof.
  destruct self as [en wt lim mf mm sc msg]. unfold verify_fields at 1; simpl.
  destruct en; simpl; [|by intros [= <-]].
  destruct wt, lim, mf as [[f|fs]|], mm; simpl; try done;
    (destruct msg; simpl; [|destruct (phrase sc); simpl; [|done]]);
    by intros [= <-].
Qed.

Lemma verify_fields_idempotent_witness :
  verify_fields phrase_excerpt
    {| enable := true; window_time := Some (seconds 60); limit := Some (-1);
       match_fields := Some (FieldList [USERAGENT]); match_method := Some OR;
       status_code := 429; message := Some (MStr "Too Many Requests") |}
  = Ok {| enable := true; window_time := Some (seconds 60); limit := Some (-1);
          match_fields := Some (FieldList [USERAGENT]); match_method := Some OR;
          status_code := 429; message := Some (MStr "Too Many Requests") |}.
Proof.
  apply (verify_fields_idempotent phrase_excerpt enabled_negative_limit).
  reflexivity.
Defined.

(** X10. Once an enabled configuration is accepted, every setting the
    middleware reads at import time is defined and is the configured value:
    a single match field has become a one-element list, and the message is
    the configured one or, without one, the phrase of the status code. *)
Theorem accepted_config_settings (phrase : Z -> option string)
  (self self' : RateLimitConfig) :
  enable self = true ->
  verify_fields phrase self = Ok self' ->
  exists cfg,
    settings_of self' = Some cfg
    /\ window_time self = Some (_window_time cfg)
    /\ limit self = Some (_limit cfg)
    /\ match_method self = Some (_match_method cfg)
    /\ (match_fields self = Some (FieldList (_match_fields cfg))
        \/ exists f, match_fields self = Some (OneField f) /\ _match_fields cfg = [f])
    /\ _status_code cfg = status_code self
    /\ exists m, _message cfg = Some m
         /\ (message self = Some m
             \/ message self = None
                /\ exists p, phrase (status_code self) = Some p /\ m = MStr p).
Proof.
  destruct self as [en wt lim mf mm sc msg]; simpl. intros -> Hok.
  unfold verify_fields in Hok; simpl in Hok.
  destruct wt, lim, mf as [[f|fs]|], mm; simpl in Hok; try done;
    (destruct msg; simpl in Hok;
       [|destruct (phrase sc) eqn:Hp; simpl in Hok; [|done]]);
    injection Hok as <-; eexists; simpl;
    (split; [reflexivity|]); repeat (split; [done|]);
    (split; [by (left + (right; eexists))|]);
    (split; [done|]); eexists; (split; [reflexivity|]);
    by (left + (right; split; [|eexists])).
Qed.

Lemma accepted_config_settings_witness :
  exists cfg,
    settings_of {| enable := true; window_time := Some (seconds 60);
                   limit := Some (-1);
                   match_fields := Some (FieldList [USERAGENT]);
                   match_method := Some OR; status_code := 429;
                   message := Some (MStr "Too Many Requests") |} = Some cfg
    /\ _match_fields cfg = [USERAGENT] /\ _limit cfg = -1.
Proof.
  destruct (accepted_config_settings phrase_excerpt enabled_negative_limit
              {| enable := true; window_time := Some (seconds 60);
                 limit := Some (-1);
                 match_fields := Some (FieldList [USERAGENT]);
                 match_method := Some OR; status_code := 429;
                 message := Some (MStr "Too Many Requests") |})
    as (cfg & Hs & _ & Hl & _ & Hf & _); [reflexivity..|].
  exists cfg. split; [exact Hs|]. split.
  - destruct Hf as [Hf|(f & Hf & ->)]; [discriminate Hf|].
    by injection Hf as <-.
  - by injection Hl as <-.
Defined.

(** ** [_map_files] and [load_config] *)

Section loader.

Import Loader.

Context {path E R : Type}.
Variable Path : string -> path.
Variable with_suffix : path -> string -> E + path.
Variable is_file : path -> bool.
Variable callback : path -> E + R.

(** What one pass over the suffixes adds to the result. *)
Lemma probe_result p suffixes acc rs :
  probe with_suffix is_file callback p suffixes acc = inr rs ->
  exists new,
    rs = acc ++ new /\ (length new <= length suffixes)%nat
    /\ forall r, r ∈ new ->
         exists suffix q, suffix ∈ suffixes /\ with_suffix p suffix = inr q
                          /\ is_file q = true /\ callback q = inr r.
Proof.
  revert acc. induction suffixes as [|suffix suffixes IH]; intros acc; simpl.
  - intros [= <-]. exists []. rewrite app_nil_r. split; [done|]. split; [done|].
    intros r Hr. by apply elem_of_nil in Hr.
  - destruct (with_suffix p suffix) as [e|q] eqn:Hq; [done|].
    destruct (is_file q) eqn:Hfile.
    + destruct (callback q) as [e|r0] eqn:Hr0; [done|].
      intros (new & -> & Hlen & Hnew)%IH. exists (r0 :: new).
      rewrite <- app_assoc. split; [done|]. split; [simpl; lia|].
      intros r [->|Hr]%elem_of_cons.
      * exists suffix, q. split; [left|done].
      * destruct (Hnew r Hr) as (s' & q' & Hs' & Hrest).
        exists s', q'. split; [by right|done].
    + intros (new & -> & Hlen & Hnew)%IH. exists new.
      split; [done|]. split; [lia|].
      intros r Hr. destruct (Hnew r Hr) as (s' & q' & Hs' & Hrest).
      exists s', q'. split; [by right|done].
Qed.

Lemma each_filename_result filenames suffixes acc rs :
  each_filename Path with_suffix is_file callback filenames suffixes acc = inr rs ->
  exists new,
    rs = acc ++ new /\ (length new <= length filenames * length suffixes)%nat
    /\ forall r, r ∈ new ->
         exists filename suffix0 suffix q,
           filename ∈ filenames /\ head suffixes = Some suffix0
           /\ suffix ∈ suffixes
           /\ with_suffix (Path (filename +:+ suffix0)) suffix = inr q
           /\ is_file q = true /\ callback q = inr r.
Proof.
  destruct suffixes as [|suffix0 suffixes'].
  { destruct filenames; simpl; [|done]. intros [= <-]. exists [].
    rewrite app_nil_r. split; [done|]. split; [done|].
    intros r Hr. by apply elem_of_nil in Hr. }
  revert acc. induction filenames as [|filename filenames IH]; intros acc.
  - simpl. intros [= <-]. exists []. rewrite app_nil_r. split; [done|].
    split; [done|]. intros r Hr. by apply elem_of_nil in Hr.
  - cbn [each_filename].
    destruct (probe _ _ _ _ _ acc) as [e|acc'] eqn:Hp; [done|].
    apply probe_result in Hp as (new1 & -> & Hlen1 & Hnew1).
    intros (new2 & -> & Hlen2 & Hnew2)%IH. exists (new1 ++ new2).
    rewrite <- app_assoc. split; [done|].
    split; [rewrite length_app; cbn [length] in *; lia|].
    intros r [Hr|Hr]%elem_of_app.
    + destruct (Hnew1 r Hr) as (s' & q & Hs' & Hrest).
      exists filename, suffix0, s', q. split; [left|]. split; [done|done].
    + destruct (Hnew2 r Hr) as (f' & s0 & s' & q & Hf' & Hrest).
      exists f', s0, s', q. split; [by right|done].
Qed.

(** X11. [_map_files] returns the empty list when no file name is given,
    whatever the suffixes; with a file name and no suffix it raises
    [IndexError]; otherwise every element of its result is the callback's
    value on a path that is a file and is obtained from a file name
    extended by the first suffix and re-suffixed by one of the suffixes,
    and there are at most as many elements as pairs of a name and a
    suffix. *)
Theorem map_files_result (filenames suffixes : names) :
  (as_iterable filenames = [] ->
   _map_files Path with_suffix is_file callback filenames suffixes = inr [])
  /\ (as_iterable filenames <> [] -> as_iterable suffixes = [] ->
      _map_files Path with_suffix is_file callback filenames suffixes
      = inl IndexError)
  /\ (forall rs,
        _map_files Path with_suffix is_file callback filenames suffixes = inr rs ->
        (length rs <= length (as_iterable filenames)
                      * length (as_iterable suffixes))%nat
        /\ forall r, r ∈ rs ->
             exists filename suffix0 suffix q,
               filename ∈ as_iterable filenames
               /\ head (as_iterable suffixes) = Some suffix0
               /\ suffix ∈ as_iterable suffixes
               /\ with_suffix (Path (filename +:+ suffix0)) suffix = inr q
               /\ is_file q = true /\ callback q = inr r).
Proof.
  unfold _map_files. split; [by intros ->|]. split.
  - intros Hne ->. by destruct (as_iterable filenames).
  - intros rs (new & -> & Hlen & Hnew)%each_filename_result. done.
Qed.

End loader.

Section load_config.

Import Loader.

Context {path E V : Type}.
Variable Path : string -> path.
Variable with_suffix : path -> string -> E + path.
Variable is_file : path -> bool.
Variable _load_yaml : path -> E + list (string * V).
Variable _format_key : string -> string.

(** X12. Outside development mode [load_config] reads no file: the file
    names it hands to [_map_files] are the empty tuple, so the dictionary
    [Config] is built from is empty whatever the file system holds and
    whatever the loader would return. *)
Theorem load_config_reads_nothing_outside_dev :
  load_config_dict Path with_suffix is_file _load_yaml _format_key false = inr [].
Proof. reflexivity. Qed.

Lemma fold_setitem_keys (f : string -> string) (items acc : list (string * V)) :
  NoDup acc.*1 ->
  NoDup (fold_left (fun d '(k, v) => Py.setitem d (f k) v) items acc).*1
  /\ forall k, k ∈ (fold_left (fun d '(k, v) => Py.setitem d (f k) v) items acc).*1 ->
       k ∈ acc.*1 \/ k ∈ f <$> items.*1.
Proof.
  revert acc. induction items as [|[k0 v0] items IH]; intros acc Hacc; simpl.
  - split; [done|]. by left.
  - destruct (IH (Py.setitem acc (f k0) v0)) as [Hnd Hkeys];
      [by apply setitem_NoDup|].
    split; [done|]. intros k Hk.
    destruct (Hkeys k Hk) as [Hin|Hin]; [|right; by right].
    apply setitem_keys in Hin as [Hin | ->]; [by left|right; left].
Qed.

Lemma update_formatted_keys (config_dict config : list (string * V)) :
  formatted_keys _format_key config_dict ->
  formatted_keys _format_key (update_formatted _format_key config_dict config).
Proof.
  intros [Hnd Hfmt]. unfold update_formatted.
  destruct (fold_setitem_keys _format_key config []) as [_ Hnew]; [constructor|].
  destruct (fold_setitem_keys id
              (fold_left (fun d '(k, v) => Py.setitem d (_format_key k) v) config [])
              config_dict Hnd) as [Hnd' Hkeys].
  split; [done|]. intros k Hk. destruct (Hkeys k Hk) as [Hold|Hin].
  - by apply Hfmt.
  - rewrite list_fmap_id in Hin. destruct (Hnew k Hin) as [Hnil|Hf].
    + by apply elem_of_nil in Hnil.
    + apply list_elem_of_fmap in Hf as (k0 & -> & _). by exists k0.
Qed.

(** X13. In either mode, when the loading ends without exception every key
    of the merged dictionary is a normalised key and occurs once: keys of
    the files that normalise to the same key are merged into one entry. *)
Theorem load_config_keys_formatted (_is_dev : bool) (config_dict : list (string * V)) :
  load_config_dict Path with_suffix is_file _load_yaml _format_key _is_dev
  = inr config_dict ->
  formatted_keys _format_key config_dict.
Proof.
  unfold load_config_dict. destruct (_map_files _ _ _ _ _ _) as [e|configs]; [done|].
  intros [= <-].
  assert (forall acc, formatted_keys _format_key acc ->
            formatted_keys _format_key
              (fold_left (update_formatted _format_key) configs acc)) as Hfold.
  { induction configs as [|c configs IH]; intros acc Hacc; simpl; [done|].
    by apply IH, update_formatted_keys. }
  apply Hfold. split; [constructor|]. intros k Hk. by apply elem_of_nil in Hk.
Qed.

End load_config.

(** ** [_path2import_path] *)

Lemma prefix_cons a s1 b s2 :
  String.prefix (String a s1) (String b s2)
  = if Ascii.ascii_dec a b then String.prefix s1 s2 else false.
Proof. reflexivity. Qed.

Lemma prefix_dot_dot (s : string) :
  String.prefix ".." s = true -> String.prefix "." s = true.
Proof.
  destruct s as [|c s]; [done|]. rewrite !prefix_cons.
  destruct (Ascii.ascii_dec _ c); [intros _; by destruct s|done].
Qed.

(** X14. [_path2import_path] always returns a relative import path: the
    result begins with a dot, whatever the components are. *)
Theorem path2import_path_is_relative (parts : list string) :
  String.prefix "." (_path2import_path parts) = true.
Proof.
  unfold _path2import_path.
  destruct (String.prefix ".." _) eqn:Hp; [by apply prefix_dot_dot|].
  clear Hp. generalize (String.concat "."
    (map (fun part => if decide (part = ".."%string) then "."%string else part)
         parts)).
  intros p. by destruct p.
Qed.

Lemma plain_part_not_parent (part : string) :
  plain_part part -> (if decide (part = ".."%string) then "."%string else part) = part.
Proof.
  intros [_ Hdot]. destruct (decide (part = ".."%string)) as [->|]; [|done].
  by vm_compute in Hdot.
Qed.

Lemma map_plain_parts (parts : list string) :
  Forall plain_part parts ->
  map (fun part => if decide (part = ".."%string) then "."%string else part) parts
  = parts.
Proof.
  induction 1 as [|part parts Hp _ IH]; simpl; [done|].
  by rewrite IH, plain_part_not_parent.
Qed.

Lemma append_nil (x : string) : String.append EmptyString x = x.
Proof. reflexivity. Qed.

Lemma append_cons c (a x : string) :
  String.append (String c a) x = String c (String.append a x).
Proof. reflexivity. Qed.

Lemma has_dot_cons c (a : string) :
  has_dot (String c a)
  = if decide (String c EmptyString = "."%string) then true else has_dot a.
Proof. reflexivity. Qed.

(** A dot-free word followed by nothing or by a dot: the word is determined. *)
Lemma plain_prefix_inj (a b x y : string) :
  has_dot a = false -> has_dot b = false ->
  (x = EmptyString \/ exists x', x = String.append "." x') ->
  (y = EmptyString \/ exists y', y = String.append "." y') ->
  String.append a x = String.append b y -> a = b /\ x = y.
Proof.
  revert b. induction a as [|c a IH]; intros [|c' b] Ha Hb Hx Hy;
    rewrite ?append_nil, ?append_cons; rewrite ?has_dot_cons in *.
  - done.
  - destruct (decide (String c' EmptyString = "."%string)) as [Hc|Hc]; [done|].
    intros ->. destruct Hx as [Hx|[x' Hx]]; [done|].
    rewrite append_cons in Hx. injection Hx as Hx _. by rewrite Hx in Hc.
  - destruct (decide (String c EmptyString = "."%string)) as [Hc|Hc]; [done|].
    intros <-. destruct Hy as [Hy|[y' Hy]]; [done|].
    rewrite append_cons in Hy. injection Hy as Hy _. by rewrite Hy in Hc.
  - destruct (decide (String c EmptyString = "."%string)); [done|].
    destruct (decide (String c' EmptyString = "."%string)); [done|].
    intros [= -> Heq]. destruct (IH b Ha Hb Hx Hy Heq) as [-> ->]. done.
Qed.

Lemma concat_cons (a : string) (l : list string) :
  String.concat "." (a :: l)
  = String.append a (match l with
                     | [] => EmptyString
                     | _ :: _ => String.append "." (String.concat "." l)
                     end).
Proof.
  destruct l; [|done]. cbn [String.concat].
  induction a as [|c a IH]; rewrite ?append_nil, ?append_cons; congruence.
Qed.

Lemma concat_plain_inj (l m : list string) :
  Forall plain_part l -> Forall plain_part m ->
  String.concat "." l = String.concat "." m -> l = m.
Proof.
  intros Hl. revert m. induction Hl as [|a l [Hane Ha] Hl IH]; intros m Hm.
  - destruct Hm as [|b m [Hbne Hb] Hm]; [done|]. rewrite concat_cons.
    destruct b; [done|]. simpl. done.
  - destruct Hm as [|b m [Hbne Hb] Hm].
    + rewrite concat_cons. destruct a; [done|]. simpl. done.
    + rewrite !concat_cons. intros Heq.
      apply plain_prefix_inj in Heq as [-> Heq]; try done.
      * f_equal. destruct l as [|a' l], m as [|b' m]; try done.
        apply IH; [done|]. by injection Heq.
      * destruct l; [by left|right; by eexists].
      * destruct m; [by left|right; by eexists].
Qed.

(** X15. On paths whose components are not empty and hold no dot (the
    files [_load_routers] imports), [_path2import_path] is the dot followed
    by the components joined by dots, and it is injective: two different
    files never get the same module name. *)
Theorem path2import_path_injective (parts parts' : list string) :
  Forall plain_part parts -> Forall plain_part parts' ->
  _path2import_path parts = String.append "." (String.concat "." parts)
  /\ (_path2import_path parts = _path2import_path parts' -> parts = parts').
Proof.
  assert (forall l, Forall plain_part l ->
            _path2import_path l = String.append "." (String.concat "." l)) as Heq.
  { intros l Hl. unfold _path2import_path. rewrite map_plain_parts by done.
    destruct Hl as [|a l [Hane Ha] Hl]; [done|]. rewrite concat_cons.
    destruct a as [|c a]; [done|]. rewrite append_cons, prefix_cons.
    destruct (Ascii.ascii_dec _ c) as [<-|]; [|done]. by vm_compute in Ha. }
  intros Hp Hp'. split; [by apply Heq|].
  rewrite !Heq by done. intros [= H]. by apply concat_plain_inj.
Qed.

Lemma path2import_path_injective_witness :
  _path2import_path ["routers"%string; "users"%string] = ".routers.users"%string.
Proof.
  destruct (path2import_path_injective ["routers"%string; "users"%string] [])
    as [-> _]; [|constructor|reflexivity].
  repeat constructor; done.
Defined.

(** ** The exception middleware *)

Section exception_handles.

Import Responses ExceptionHandles.

Context {D H W : Type}.
Variable phrase : Z -> option string.

Lemma get_handlers_unregistered
  (reg : list (exc_class * list (@handler D H W))) (c : exc_class) :
  c ∉ reg.*1 -> _get_handlers reg c = Raise (KeyError (class_name c)).
Proof.
  induction reg as [|[k hs] reg IH]; simpl; [done|].
  intros Hc. destruct (decide (k = c)) as [->|Hne].
  - exfalso. apply Hc. left.
  - apply IH. intros Hin. apply Hc. by right.
Qed.

(** X16. Registering a handler for a class appends it to the handlers of
    that class, after those registered before; a class not yet known gets
    the handler alone, and the handlers of every other class are
    untouched. *)
Theorem add_handler_lookup (reg : list (exc_class * list (@handler D H W)))
  (c : exc_class) (h : @handler D H W) :
  _get_handlers (_add_handler reg c h) c
  = Ok (match _get_handlers reg c with
        | Ok handlers => handlers ++ [h]
        | Raise _ => [h]
        end)
  /\ forall c', c' <> c ->
       _get_handlers (_add_handler reg c h) c' = _get_handlers reg c'.
Proof.
  split.
  - induction reg as [|[k hs] reg IH]; simpl; [by rewrite decide_True|].
    destruct (decide (k = c)) as [->|Hne]; simpl.
    + by rewrite decide_True.
    + by rewrite decide_False.
  - intros c' Hc'. induction reg as [|[k hs] reg IH]; simpl.
    + by rewrite decide_False.
    + destruct (decide (k = c)) as [->|Hne]; simpl.
      * by rewrite !decide_False.
      * by rewrite IH.
Qed.

Lemma base_response_500 (p : string) :
  phrase 500 = Some p ->
  @BaseResponse D H W phrase 500 None None None
  = Ok (Base {| status_code := 500;
                body := {| code := 500; message := p; data := None |};
                headers := None |}).
Proof. intros Hp. unfold BaseResponse. by rewrite Hp. Qed.

Lemma get_handlers_registered
  (reg : list (exc_class * list (@handler D H W))) (c : exc_class) handlers :
  _get_handlers reg c = Ok handlers ->
  existsb (issubclass c) reg.*1 = true.
Proof.
  induction reg as [|[k hs] reg IH]; [done|].
  rewrite fmap_cons. cbn [_get_handlers existsb fst].
  destruct (decide (k = c)) as [->|Hne]; intros Hg; apply orb_true_iff.
  - left. unfold issubclass. by rewrite bool_decide_eq_true_2.
  - right. by apply IH.
Qed.

Lemma run_handlers_skips (pre : list (@handler D H W)) h post exc :
  (forall h', h' ∈ pre -> h' exc = Ok None) ->
  run_handlers (pre ++ h :: post) exc
  = match h exc with
    | Raise e => Raise e
    | Ok (Some response) => Ok response
    | Ok None => run_handlers post exc
    end.
Proof.
  induction pre as [|h0 pre IH]; intros Hpre; simpl; [done|].
  rewrite (Hpre h0) by left. apply IH. intros h' Hin. apply Hpre. by right.
Qed.

Lemma run_handlers_none (handlers : list (@handler D H W)) exc :
  (forall h, h ∈ handlers -> h exc = Ok None) ->
  run_handlers handlers exc = Raise exc.
Proof.
  induction handlers as [|h0 hs IH]; intros Hall; simpl; [done|].
  rewrite (Hall h0) by left. apply IH. intros h' Hin. apply Hall. by right.
Qed.

(** X17. With [handle_all] set and 500 a standard status, the exception
    middleware never lets an exception through. The response of the
    application is passed on as it is. For an exception, the handlers
    registered under its exact class are tried in the order of their
    registration: the first that returns a response, those before it
    having returned none, gives the answer. In every other case the
    answer is the response with status 500 and the phrase of 500 as
    message: when no handler is registered under the class, when a
    handler raises before any has answered, and when no handler returns a
    response. *)
Theorem handle_all_always_responds
  (reg : list (exc_class * list (@handler D H W)))
  (call_next : result (@Response D H W)) (p : string) :
  phrase 500 = Some p ->
  let answer := _exception_handler_middleware phrase reg true call_next in
  let response_500 :=
    Base {| status_code := 500;
            body := {| code := 500; message := p; data := None |};
            headers := None |} in
  (forall resp, call_next = Ok resp -> answer = Ok resp)
  /\ (forall exc pre h post response,
        call_next = Raise exc ->
        _get_handlers reg (type_of exc) = Ok (pre ++ h :: post) ->
        (forall h', h' ∈ pre -> h' exc = Ok None) ->
        h exc = Ok (Some response) ->
        answer = Ok response)
  /\ (forall exc, call_next = Raise exc -> type_of exc ∉ reg.*1 ->
        answer = Ok response_500)
  /\ (forall exc pre h post e,
        call_next = Raise exc ->
        _get_handlers reg (type_of exc) = Ok (pre ++ h :: post) ->
        (forall h', h' ∈ pre -> h' exc = Ok None) ->
        h exc = Raise e ->
        answer = Ok response_500)
  /\ (forall exc handlers,
        call_next = Raise exc ->
        _get_handlers reg (type_of exc) = Ok handlers ->
        (forall h, h ∈ handlers -> h exc = Ok None) ->
        answer = Ok response_500).
Proof.
  intros Hp answer response_500. subst answer response_500.
  unfold _exception_handler_middleware.
  pose proof (base_response_500 p Hp) as H500.
  split; [|split; [|split; [|split]]].
  - by intros resp ->.
  - intros exc pre h post response -> Hg Hpre Hh.
    rewrite (get_handlers_registered _ _ _ Hg), Hg, (run_handlers_skips _ _ _ _ Hpre).
    by rewrite Hh.
  - intros exc -> Hnot. rewrite (get_handlers_unregistered _ _ Hnot).
    by destruct (existsb _ _).
  - intros exc pre h post e -> Hg Hpre Hh.
    rewrite (get_handlers_registered _ _ _ Hg), Hg, (run_handlers_skips _ _ _ _ Hpre).
    by rewrite Hh.
  - intros exc handlers -> Hg Hall.
    rewrite (get_handlers_registered _ _ _ Hg), Hg, (run_handlers_none _ _ Hall).
    done.
Qed.

(** X18. Without [handle_all], an exception whose class is under no
    registered class is raised again unchanged; one whose class is under a
    registered class without being registered itself is replaced by the
    [KeyError] of the lookup by exact class. *)
Theorem unhandled_exception_raised
  (reg : list (exc_class * list (@handler D H W))) (exc : exn) :
  (existsb (issubclass (type_of exc)) reg.*1 = false ->
   _exception_handler_middleware phrase reg false (Raise exc) = Raise exc)
  /\ (existsb (issubclass (type_of exc)) reg.*1 = true ->
      type_of exc ∉ reg.*1 ->
      _exception_handler_middleware phrase reg false (Raise exc)
      = Raise (KeyError (class_name (type_of exc)))).
Proof.
  unfold _exception_handler_middleware. split.
  - by intros ->.
  - intros -> Hnot. by rewrite get_handlers_unregistered.
Qed.

(** X19. A request through the two middlewares as [app.py] stacks them,
    with a message configured: the window changes as the rate limiter
    alone changes it; a request that is not denied gets what the exception
    middleware makes of the application's answer; a denied request gets
    the response with the configured status code and message and no data,
    whatever [handle_all] is, when the message is a string; when the
    message is a list or a dict, which the configuration accepts as well,
    the handler fails on it and the denied request gets the response 500
    when [handle_all] is set, and pydantic's [ValidationError] otherwise;
    a request on which the rate limiter fails with another exception gets
    the response 500 when [handle_all] is set, and the exception
    otherwise. *)
Theorem dispatch_outcomes (handle_all : bool) (cfg : settings) (_now stamp : Z)
  (request : Request) (datas : list RequestState)
  (downstream : result (@Response D H W)) (m : Py.message) (p : string) :
  _message cfg = Some m ->
  phrase 500 = Some p ->
  let r := (_rate_limit_middleware cfg _now stamp request datas).1 in
  let out := (dispatch phrase handle_all cfg _now stamp request datas downstream).1 in
  let response_500 :=
    Base {| status_code := 500;
            body := {| code := 500; message := p; data := None |};
            headers := None |} in
  (dispatch phrase handle_all cfg _now stamp request datas downstream).2
  = (_rate_limit_middleware cfg _now stamp request datas).2
  /\ (admitted r ->
      out = _exception_handler_middleware phrase (app_handlers phrase) handle_all
              downstream)
  /\ (denied cfg r ->
      out = match m with
            | MStr text =>
                Ok (Base {| status_code := _status_code cfg;
                            body := {| code := _status_code cfg; message := text;
                                       data := None |};
                            headers := None |})
            | MList _ | MDict _ =>
                if handle_all then Ok response_500 else Raise ValidationError
            end)
  /\ (forall e, r = Raise e -> crash e ->
      out = if handle_all then Ok response_500 else Raise e).
Proof.
  intros Hm Hp r out response_500. subst r out response_500.
  unfold dispatch, with_call_next.
  destruct (_rate_limit_middleware cfg _now stamp request datas) as [r datas'].
  cbn [fst snd]. split; [done|]. split; [|split].
  - unfold admitted. by intros ->.
  - unfold denied. intros ->. rewrite Hm.
    unfold _exception_handler_middleware. simpl.
    destruct m; simpl; destruct handle_all; simpl;
      by rewrite ?(base_response_500 p Hp).
  - intros e -> Hc. unfold _exception_handler_middleware.
    destruct e; try done; simpl; destruct handle_all; simpl;
      by rewrite ?(base_response_500 p Hp).
Qed.

End exception_handles.

Lemma handle_all_always_responds_witness :
  ExceptionHandles._exception_handler_middleware (D := unit) (H := unit) (W := unit)
    status_phrases (ExceptionHandles.app_handlers status_phrases) true
    (Raise (HTTPException 403 None))
  = Ok (Responses.Base
          {| Responses.status_code := 403;
             Responses.body := {| Responses.code := 403;
                                  Responses.message := "Forbidden";
                                  Responses.data := None |};
             Responses.headers := None |}).
Proof.
  destruct (handle_all_always_responds (D := unit) (H := unit) (W := unit)
              status_phrases (ExceptionHandles.app_handlers status_phrases)
              (Raise (HTTPException 403 None)) "Internal Server Error")
    as (_ & Hanswer & _); [reflexivity|].
  apply (Hanswer (HTTPException 403 None) []
           (ExceptionHandles._handle_http_exception status_phrases) []);
    [reflexivity|reflexivity| |reflexivity].
  intros h' Hin. by apply elem_of_nil in Hin.
Defined.

Lemma unhandled_exception_raised_witness :
  ExceptionHandles._exception_handler_middleware (D := unit) (H := unit) (W := unit)
    status_phrases
    [(ExceptionHandles.StarletteHTTPException_cls,
      [ExceptionHandles._handle_http_exception status_phrases])]
    false (Raise (HTTPException 429 None))
  = Raise (KeyError "fastapi.exceptions.HTTPException").
Proof.
  apply (unhandled_exception_raised (D := unit) (H := unit) (W := unit)
           status_phrases
           [(ExceptionHandles.StarletteHTTPException_cls,
             [ExceptionHandles._handle_http_exception status_phrases])]
           (HTTPException 429 None)).
  - reflexivity.
  - intros Hin. apply list_elem_of_singleton in Hin. discriminate Hin.
Defined.

Lemma dispatch_outcomes_witness :
  (ExceptionHandles.dispatch (D := unit) (H := unit) (W := unit) status_phrases true
     (limiter [IP] AND 0 (seconds 60)) 2 3 (a_request "1.1.1.1")
     [stored_at 1 "1.1.1.1"] (Ok (Responses.Other tt))).1
  = Ok (Responses.Base
          {| Responses.status_code := 429;
             Responses.body := {| Responses.code := 429;
                                  Responses.message := "Too Many Requests";
                                  Responses.data := None |};
             Responses.headers := None |}).
Proof.
  destruct (dispatch_outcomes (D := unit) (H := unit) (W := unit) status_phrases true
              (limiter [IP] AND 0 (seconds 60)) 2 3 (a_request "1.1.1.1")
              [stored_at 1 "1.1.1.1"] (Ok (Responses.Other tt))
              (MStr "Too Many Requests") "Internal Server Error")
    as (_ & _ & Hdenied & _); [reflexivity..|].
  apply Hdenied. reflexivity.
Defined.

(** ** Pagination *)

Section pagination.

Import Pagination.

Context {Select Row Resp : Type}.
Variable select_offset : Select -> option Z -> Select.
Variable select_limit : Select -> option Z -> Select.
Variable exec_all : Select -> list Row.
Variable response_generator : list Row -> Resp.
Variable invalid_code : Z.
Variable invalid_message : string -> string -> string.

(** The limit the page is applied with: the page's own, else the query's. *)
Lemma apply_pagination_ok (page : @LimitOffsetPage Select) :
  (forall l, limit page = Some l ->
     (forall m, min_limit page = Some m -> m <= l)
     /\ (forall M, max_limit page = Some M -> l <= M)) ->
  apply_pagination select_offset select_limit page
  = inr (select_limit (select_offset (data page) (offset page)) (limit page)).
Proof.
  intros Hb. unfold apply_pagination, both_and_lt.
  destruct (limit page) as [l|]; [|by destruct (max_limit page)].
  destruct (Hb l eq_refl) as [Hmin Hmax].
  destruct (min_limit page) as [m|], (max_limit page) as [M|];
    repeat match goal with
           | |- context [?a <? ?b] => destruct (Z.ltb_spec a b)
           end; try done;
    try (specialize (Hmin _ eq_refl)); try (specialize (Hmax _ eq_refl)); lia.
Qed.

(** X20. A statement returned by the decorated function is paginated only
    when [handle_select] is set; it is then given the class defaults
    (minimal limit 0, no maximal limit), the query's offset is applied
    unchecked, a missing or non-negative query limit is applied and the
    rows are handed to the response generator, and a negative query limit
    raises the [HTTPException] with the configured code, naming [limit] and
    both values, before anything is executed. Without [handle_select] the
    statement is returned as it is, whatever the query says. *)
Theorem pagination_of_statement (statement : Select) (limit' offset' : option Z) :
  ((limit' = None \/ exists l, limit' = Some l /\ 0 <= l) ->
   _pagination_handler select_offset select_limit exec_all response_generator true
     invalid_code invalid_message limit' offset' (ASelect statement)
   = Ok (Generated (response_generator
           (exec_all (select_limit (select_offset statement offset') limit')))))
  /\ (forall l, limit' = Some l -> l < 0 ->
      _pagination_handler select_offset select_limit exec_all response_generator true
        invalid_code invalid_message limit' offset' (ASelect statement)
      = Raise (HTTPException invalid_code
                 (Some (MStr (invalid_message "limit"
                                ("invalid limit, expect `limit >= 0`, but got `"
                                   +:+ pretty l +:+ "`"))))))
  /\ _pagination_handler select_offset select_limit exec_all response_generator false
       invalid_code invalid_message limit' offset' (ASelect statement)
     = Ok (Untouched (ASelect statement)).
Proof.
  split; [|split; [|done]].
  - intros Hl. unfold _pagination_handler. cbn.
    rewrite apply_pagination_ok; [done|]. cbn. intros l ->. split; [|done].
    intros m [= <-]. destruct Hl as [?|(l' & [= <-] & ?)]; done.
  - intros l -> Hneg. unfold _pagination_handler. cbn.
    unfold apply_pagination, both_and_lt. cbn.
    by destruct (Z.ltb_spec l 0); [|lia].
Qed.

(** X21. For a page returned by the decorated function, whether
    [handle_select] is set or not, the page's own limit and offset take
    precedence over the query's, which only fill what the page leaves
    open. The page is executed iff the resulting limit is absent or within
    the page's bounds, where they are set; otherwise the handler raises
    the [HTTPException] with the configured code, on the parameter
    [limit]. The offset is never checked. *)
Theorem pagination_of_page (handle_select : bool) (page : @LimitOffsetPage Select)
  (limit' offset' : option Z) :
  let effective :=
    {| data := data page;
       limit := match limit page with Some l => Some l | None => limit' end;
       offset := match offset page with Some o => Some o | None => offset' end;
       min_limit := min_limit page;
       max_limit := max_limit page |} in
  let outcome :=
    _pagination_handler select_offset select_limit exec_all response_generator
      handle_select invalid_code invalid_message limit' offset' (APage page) in
  ((forall l, limit effective = Some l ->
      (forall m, min_limit page = Some m -> m <= l)
      /\ (forall M, max_limit page = Some M -> l <= M)) ->
   outcome
   = Ok (Generated (response_generator
           (exec_all (select_limit (select_offset (data page) (offset effective))
                                   (limit effective))))))
  /\ (forall l m, limit effective = Some l -> min_limit page = Some m -> l < m ->
      outcome
      = Raise (HTTPException invalid_code
                 (Some (MStr (invalid_message "limit"
                                ("invalid limit, expect `limit >= " +:+ pretty m
                                   +:+ "`, but got `" +:+ pretty l +:+ "`"))))))
  /\ (forall l M, limit effective = Some l -> max_limit page = Some M -> M < l ->
      (forall m, min_limit page = Some m -> m <= l) ->
      outcome
      = Raise (HTTPException invalid_code
                 (Some (MStr (invalid_message "limit"
                                ("invalid limit, expect `limit <= " +:+ pretty M
                                   +:+ "`, but got `" +:+ pretty l +:+ "`"))))))
  /\ (forall l, limit page = Some l -> limit effective = Some l)
  /\ (forall o, offset page = Some o -> offset effective = Some o).
Proof.
  intros effective outcome. split; [|split; [|split; [|split]]].
  - intros Hb. subst outcome. unfold _pagination_handler. fold effective.
    by rewrite apply_pagination_ok.
  - intros l m Hl Hm Hlt. subst outcome. unfold _pagination_handler.
    fold effective. unfold apply_pagination, both_and_lt. rewrite Hl.
    cbn [min_limit max_limit effective]. rewrite Hm.
    by destruct (Z.ltb_spec l m); [|lia].
  - intros l M Hl HM Hlt Hmin. subst outcome. unfold _pagination_handler.
    fold effective. unfold apply_pagination, both_and_lt. rewrite Hl.
    cbn [min_limit max_limit effective]. rewrite HM.
    destruct (min_limit page) as [m|].
    + specialize (Hmin m eq_refl).
      destruct (Z.ltb_spec l m); [lia|].
      by destruct (Z.ltb_spec M l); [|lia].
    + by destruct (Z.ltb_spec M l); [|lia].
  - intros l Hl. cbn. by rewrite Hl.
  - intros o Ho. cbn. by rewrite Ho.
Qed.

End pagination.

(** ** Further instances *)

Lemma field_order_irrelevant_unless_crash_witness :
  (_rate_limit_middleware (limiter [IP; USERAGENT] AND 0 (seconds 60)) 2 3
     (with_user_agent "1.1.1.1" "curl")
     [ {| fields := [("ip"%string, VStr "1.1.1.1"); ("useragent"%string, VStr "curl")];
          timestamp := 1 |} ]).1
  = (_rate_limit_middleware
       (with_match_fields [USERAGENT; IP] (limiter [IP; USERAGENT] AND 0 (seconds 60)))
       2 3 (with_user_agent "1.1.1.1" "curl")
       [ {| fields := [("ip"%string, VStr "1.1.1.1");
                       ("useragent"%string, VStr "curl")];
            timestamp := 1 |} ]).1.
Proof.
  apply (field_order_irrelevant_unless_crash
           (limiter [IP; USERAGENT] AND 0 (seconds 60)) [USERAGENT; IP] 2 3
           (with_user_agent "1.1.1.1" "curl")
           [ {| fields := [("ip"%string, VStr "1.1.1.1");
                           ("useragent"%string, VStr "curl")];
                timestamp := 1 |} ]).
  - apply perm_swap.
  - right. reflexivity.
  - right. reflexivity.
Defined.

Lemma load_config_keys_formatted_witness :
  formatted_keys (fun _ : string => "log_level"%string) [("log_level"%string, 1)].
Proof.
  apply (load_config_keys_formatted (path := string) (E := unit) (V := Z)
           (fun name => name) (fun p suffix => inr (p +:+ suffix))
           (fun _ => true)
           (fun _ => inr [("Log-Level"%string, 1)])
           (fun _ => "log_level"%string) true).
  vm_compute. reflexivity.
Defined.

(** ** The order of the files *)

Section file_order.

Import Loader.

Context {path E R : Type}.
Variable Path : string -> path.
Variable with_suffix : path -> string -> path.
Variable is_file : path -> bool.
Variable callback : path -> R.

Lemma probe_in_order p suffixes acc :
  probe (fun q suffix => inr (with_suffix q suffix)) is_file
    (fun q => @inr E R (callback q)) p suffixes acc
  = inr (acc ++ map callback (List.filter is_file (map (with_suffix p) suffixes))).
Proof.
  revert acc. induction suffixes as [|suffix suffixes IH]; intros acc; simpl.
  - by rewrite app_nil_r.
  - destruct (is_file (with_suffix p suffix)); simpl; rewrite IH; [|done].
    by rewrite <- app_assoc.
Qed.

(** X25. When neither the re-suffixing nor the callback raises, and at
    least one suffix is given, [_map_files] returns the callback's values
    on the candidate paths that are files, in the order of the file names
    and, for one file name, in the order of the suffixes. *)
Theorem map_files_in_order (filenames : list string) (suffix0 : string)
  (suffixes : list string) :
  _map_files Path (fun q suffix => inr (with_suffix q suffix)) is_file
    (fun q => @inr E R (callback q)) (Many filenames) (Many (suffix0 :: suffixes))
  = inr (map callback
           (List.filter is_file
              (flat_map (fun filename =>
                           map (with_suffix (Path (filename +:+ suffix0)))
                               (suffix0 :: suffixes))
                        filenames))).
Proof.
  unfold _map_files. cbn [as_iterable].
  assert (forall acc,
            each_filename Path (fun q suffix => inr (with_suffix q suffix)) is_file
              (fun q => @inr E R (callback q)) filenames (suffix0 :: suffixes) acc
            = inr (acc ++ map callback
                     (List.filter is_file
                        (flat_map (fun filename =>
                                     map (with_suffix (Path (filename +:+ suffix0)))
                                         (suffix0 :: suffixes))
                                  filenames)))) as Hloop.
  { induction filenames as [|filename filenames IH]; intros acc.
    - simpl. by rewrite app_nil_r.
    - cbn [each_filename flat_map]. rewrite probe_in_order, IH.
      by rewrite List.filter_app, map_app, <- app_assoc. }
  apply (Hloop []).
Qed.

End file_order.

Section later_wins.

Import Loader.

Context {path E V : Type}.
Variable Path : string -> path.
Variable with_suffix : path -> string -> E + path.
Variable is_file : path -> bool.
Variable _load_yaml : path -> E + list (string * V).
Variable _format_key : string -> string.

Lemma get_setitem (d : list (string * V)) k v key :
  get_or_none (setitem d k v) key
  = if decide (k = key) then Some v else get_or_none d key.
Proof.
  unfold get_or_none. induction d as [|[k0 v0] d IH]; simpl.
  - by destruct (decide (k = key)).
  - destruct (decide (k0 = k)) as [->|Hne]; simpl.
    + by destruct (decide (k = key)).
    + destruct (decide (k0 = key)) as [->|Hne']; [by rewrite decide_False|done].
Qed.

Lemma fold_setitem_get (f : string -> string) (items acc : list (string * V)) key :
  get_or_none (fold_left (fun d '(k, v) => setitem d (f k) v) items acc) key
  = match last_formatted f items key with
    | Some v => Some v
    | None => get_or_none acc key
    end.
Proof.
  revert acc. induction items as [|[k v] items IH]; intros acc; simpl; [done|].
  rewrite IH, get_setitem.
  destruct (last_formatted f items key); [done|].
  by destruct (decide (f k = key)).
Qed.

Lemma last_formatted_id (d : list (string * V)) key :
  NoDup d.*1 -> last_formatted id d key = get_or_none d key.
Proof.
  unfold get_or_none. induction d as [|[k v] d IH]; simpl; [done|].
  intros [Hk Hd]%NoDup_cons. rewrite IH by done. unfold id.
  destruct (decide (k = key)) as [->|Hne]; [|by destruct (getitem d key)].
  destruct (getitem d key) as [v'|e] eqn:Hg; [|done].
  exfalso. apply Hk. clear -Hg. induction d as [|[k0 v0] d IH]; simpl in *; [done|].
  destruct (decide (k0 = key)) as [->|]; [left|right; by apply IH].
Qed.

Lemma update_formatted_get (config_dict config : list (string * V)) key :
  get_or_none (update_formatted _format_key config_dict config) key
  = match last_formatted _format_key config key with
    | Some v => Some v
    | None => get_or_none config_dict key
    end.
Proof.
  unfold update_formatted.
  rewrite (fold_setitem_get id), last_formatted_id, fold_setitem_get.
  - by destruct (last_formatted _format_key config key).
  - by apply fold_setitem_keys; constructor.
Qed.

(** X26. In the merged dictionary a normalised key has the value given by
    the last loaded file that defines a key normalising to it, and within
    that file by the last such key; a key no file defines is absent. *)
Theorem load_config_later_wins (_is_dev : bool) (configs : list (list (string * V))) :
  _map_files Path with_suffix is_file _load_yaml (config_filenames _is_dev)
    (Many [".json"%string; ".yaml"%string; ".yml"%string]) = inr configs ->
  exists config_dict,
    load_config_dict Path with_suffix is_file _load_yaml _format_key _is_dev
    = inr config_dict
    /\ forall key,
         get_or_none config_dict key = last_defined _format_key configs key.
Proof.
  intros Hmap. unfold load_config_dict. rewrite Hmap. eexists. split; [done|].
  intros key.
  assert (forall acc,
            get_or_none (fold_left (update_formatted _format_key) configs acc) key
            = match last_defined _format_key configs key with
              | Some v => Some v
              | None => get_or_none acc key
              end) as Hfold.
  { clear Hmap. induction configs as [|c cs IH]; intros acc; simpl; [done|].
    rewrite IH, update_formatted_get.
    by destruct (last_defined _format_key cs key). }
  rewrite Hfold. by destruct (last_defined _format_key configs key).
Qed.

End later_wins.

Lemma load_config_later_wins_witness :
  exists config_dict : list (string * Z),
    Loader.load_config_dict (path := string) (E := unit) (fun name => name)
      (fun p suffix => inr (p +:+ suffix))
      (fun p => bool_decide (p = "dev.config.json.yml"%string))
      (fun _ => inr [("Log-Level"%string, 1); ("log_level"%string, 2)])
      (fun k => if decide (k = "Log-Level"%string) then "log_level"%string else k)
      true
    = inr config_dict
    /\ forall key,
         get_or_none config_dict key
         = last_defined
             (fun k => if decide (k = "Log-Level"%string) then "log_level"%string else k)
             [[("Log-Level"%string, 1); ("log_level"%string, 2)]] key.
Proof.
  apply (load_config_later_wins (path := string) (E := unit) (V := Z)
           (fun name => name) (fun p suffix => inr (p +:+ suffix))
           (fun p => bool_decide (p = "dev.config.json.yml"%string))
           (fun _ => inr [("Log-Level"%string, 1); ("log_level"%string, 2)])
           (fun k => if decide (k = "Log-Level"%string) then "log_level"%string else k)
           true).
  vm_compute. reflexivity.
Defined.
